(** * Balanced shipping optimisation: the model behind
      [supply_chain_optimization.py]

    The script groups historical shipments by (warehouse, mode), builds a
    PuLP linear program over one decision variable per group, calls the
    solver and turns the variables' values into result rows.

    Numbers are exact rationals ([Q]): the script's floating-point rounding
    is abstracted, so numeric statements are stated with [==] on [Q]. *)

From Stdlib Require Import List String Ascii Bool QArith Lia Lqa.
From Stdlib Require Import Sorting.Sorted Sorting.Permutation Structures.OrderedTypeEx.
Import ListNotations.

Open Scope string_scope.
Open Scope Q_scope.

(** ** Python values the script manipulates *)

(** The exceptions the script can die with: a failed dict subscript, the
    product [None * int], and whatever the solver call raises. *)
Inductive exn : Type :=
| KeyError (key : string)
| TypeError
| PulpSolverError.

Definition result (A : Type) : Type := (exn + A)%type.

Definition ret {A} (a : A) : result A := inr a.
Definition raise {A} (e : exn) : result A := inl e.
Definition bind {A B} (m : result A) (k : A -> result B) : result B :=
  match m with
  | inl e => inl e
  | inr a => k a
  end.

Notation "x <- m ;; k" := (bind m (fun x => k))
  (at level 61, m at next level, right associativity).

(** A dict with string keys, in insertion order. *)
Definition dict (V : Type) : Type := list (string * V).

Fixpoint dict_get {V} (d : dict V) (k : string) : option V :=
  match d with
  | [] => None
  | (k', v) :: d' => if String.eqb k' k then Some v else dict_get d' k
  end.

Definition dict_keys {V} (d : dict V) : list string := map fst d.

(** [d[k]]: raises [KeyError] on a missing key. *)
Definition subscript {V} (d : dict V) (k : string) : result V :=
  match dict_get d k with
  | Some v => ret v
  | None => raise (KeyError k)
  end.

(** ** Input rows and the cost table (lines 7-17) *)

(** One row of [train.csv]. A label that is missing in the file is read as
    NaN: [None]. A missing weight is skipped by both sums of lines 20-21,
    which is what a weight of 0 does, so weights are plain numbers. *)
Record Shipment : Type := {
  Warehouse_block : option string;
  Mode_of_Shipment : option string;
  Weight_in_gms : Q
}.

Definition Weight_in_kg (r : Shipment) : Q := Weight_in_gms r / 1000.

Definition cost_per_kg : dict Q :=
  [("Flight", 20); ("Ship", 10); ("Road", 5)].

(** ** Aggregation (lines 19-21) *)

(** A (warehouse, mode) pair: the key of a group and of a decision variable. *)
Definition Key : Type := (string * string)%type.

(** The group key of a row: none when one of the two labels is missing. *)
Definition key_of (r : Shipment) : option Key :=
  match Warehouse_block r, Mode_of_Shipment r with
  | Some w, Some m => Some (w, m)
  | _, _ => None
  end.

Definition key_compare (a b : Key) : comparison :=
  match String.compare (fst a) (fst b) with
  | Eq => String.compare (snd a) (snd b)
  | c => c
  end.

Definition key_eqb (a b : Key) : bool :=
  String.eqb (fst a) (fst b) && String.eqb (snd a) (snd b).

(** One row of [grouped_data]: the key columns and the summed weight. *)
Definition Cell : Type := (Key * Q)%type.

(** [groupby] sorts the group keys; a row joins its group or opens a new
    one at its sorted position. *)
Fixpoint add_to_group (k : Key) (w : Q) (g : list Cell) : list Cell :=
  match g with
  | [] => [(k, w)]
  | (k', s) :: rest =>
      match key_compare k k' with
      | Lt => (k, w) :: g
      | Eq => (k', s + w) :: rest
      | Gt => (k', s) :: add_to_group k w rest
      end
  end.

(** [groupby(...).sum()]: a row with a missing key is left out of every
    group ([dropna], the default). *)
Definition group_step (g : list Cell) (r : Shipment) : list Cell :=
  match key_of r with
  | Some k => add_to_group k (Weight_in_kg r) g
  | None => g
  end.

Definition groupby_sum (data : list Shipment) : list Cell :=
  fold_left group_step data [].

(** [Series.sum()]. *)
Definition sum (l : list Q) : Q := fold_left Qplus l 0.
Arguments sum : simpl never.

Definition grouped_data (data : list Shipment) : list Cell := groupby_sum data.

(** Line 21 sums the weight column of all rows, keyed or not. *)
Definition total_actual_weight (data : list Shipment) : Q :=
  sum (map Weight_in_kg data).

(** The rows whose key is present and satisfies [p]. *)
Definition keyed (p : Key -> bool) (r : Shipment) : bool :=
  match key_of r with
  | Some k => p k
  | None => false
  end.

(** The keys of the rows that have one, in the rows' order. *)
Definition observed_keys (data : list Shipment) : list Key :=
  flat_map (fun r => match key_of r with
                     | Some k => [k]
                     | None => []
                     end) data.
Arguments observed_keys : simpl never.

(** ** The PuLP model (lines 23-63) *)

(** A decision variable is identified by the (warehouse, mode) index it was
    created for; every variable has [lowBound=0] and no upper bound. *)
Definition Var : Type := Key.

(** [LpVariable.dicts]: one dict entry per index, [d[i] = LpVariable(...)]
    for [i] in the index list; a repeated index keeps its first position. *)
Fixpoint dict_setdefault (k : Key) (d : list Var) : list Var :=
  match d with
  | [] => [k]
  | k' :: d' => if key_eqb k' k then d else k' :: dict_setdefault k d'
  end.

Definition LpVariable_dicts (indices : list Key) : list Var :=
  fold_left (fun d k => dict_setdefault k d) indices [].

(** An affine expression is a dict from variables to coefficients. *)
Definition LpAffineExpression : Type := list (Var * Q).

Fixpoint addterm (v : Var) (x : Q) (e : LpAffineExpression) : LpAffineExpression :=
  match e with
  | [] => [(v, x)]
  | (v', x') :: e' =>
      if key_eqb v' v then (v', x' + x) :: e' else (v', x') :: addterm v x e'
  end.

Definition lpSum (terms : list (Var * Q)) : LpAffineExpression :=
  fold_left (fun e t => addterm (fst t) (snd t) e) terms [].

Inductive LpConstraintSense : Type :=
| LpConstraintLE
| LpConstraintEQ
| LpConstraintGE.

Record LpConstraint : Type := {
  c_name : option string;
  c_expr : LpAffineExpression;
  c_sense : LpConstraintSense;
  c_rhs : Q
}.

Record LpProblem : Type := {
  variables : list Var;
  objective : LpAffineExpression;
  constraints : list LpConstraint
}.

(** [decision_vars], lines 27-31. *)
Definition decision_vars (grouped : list Cell) : list Var :=
  LpVariable_dicts (map fst grouped).

Fixpoint mapM {A B} (f : A -> result B) (l : list A) : result (list B) :=
  match l with
  | [] => ret []
  | a :: l' => b <- f a ;; bs <- mapM f l' ;; ret (b :: bs)
  end.

(** The objective, lines 34-37: one term per grouped row, its coefficient
    looked up in [cost_per_kg] by the row's mode. *)
Definition objective_term (row : Cell) : result (Var * Q) :=
  c <- subscript cost_per_kg (snd (fst row)) ;; ret (fst row, c).

Definition build_objective (grouped : list Cell) : result LpAffineExpression :=
  terms <- mapM objective_term grouped ;; ret (lpSum terms).

(** [lpSum(var for key, var in decision_vars.items() if p key)] *)
Definition sum_vars_where (p : Key -> bool) (dv : list Var) : LpAffineExpression :=
  lpSum (map (fun k => (k, 1)) (filter p dv)).

Definition has_mode (mode : string) (k : Key) : bool := String.eqb (snd k) mode.
Definition has_warehouse (warehouse : string) (k : Key) : bool :=
  String.eqb (fst k) warehouse.

(** Constraint 1, line 42. *)
Definition total_weight_constraint (dv : list Var) (T : Q) : LpConstraint :=
  {| c_name := None;
     c_expr := lpSum (map (fun k => (k, 1)) dv);
     c_sense := LpConstraintEQ;
     c_rhs := T |}.

(** Constraint 2, lines 45-49. *)
Definition min_allocation (dv : list Var) (T : Q) (mode : string) : LpConstraint :=
  {| c_name := Some ("min_" ++ mode ++ "_allocation");
     c_expr := sum_vars_where (has_mode mode) dv;
     c_sense := LpConstraintGE;
     c_rhs := 0.2 * T |}.

(** Constraint 3, lines 52-56. *)
Definition max_allocation (dv : list Var) (T : Q) (mode : string) : LpConstraint :=
  {| c_name := Some ("max_" ++ mode ++ "_allocation");
     c_expr := sum_vars_where (has_mode mode) dv;
     c_sense := LpConstraintLE;
     c_rhs := 0.5 * T |}.

(** [Series.unique()]: the distinct values in order of first appearance. *)
Definition unique (l : list string) : list string :=
  fold_left (fun seen x => if existsb (String.eqb x) seen then seen else (seen ++ [x])%list) l [].

(** [grouped_data[grouped_data['Warehouse_block'] == warehouse]['Weight_in_kg'].sum()] *)
Definition warehouse_weight (grouped : list Cell) (warehouse : string) : Q :=
  sum (map snd (filter (fun row => has_warehouse warehouse (fst row)) grouped)).

(** Constraint 4, lines 59-63. *)
Definition warehouse_capacity (grouped : list Cell) (dv : list Var) (warehouse : string)
  : LpConstraint :=
  {| c_name := None;
     c_expr := sum_vars_where (has_warehouse warehouse) dv;
     c_sense := LpConstraintLE;
     c_rhs := 1.1 * warehouse_weight grouped warehouse |}.

Definition build_constraints (grouped : list Cell) (dv : list Var) (T : Q)
  : list LpConstraint :=
  ([total_weight_constraint dv T]
     ++ map (min_allocation dv T) (dict_keys cost_per_kg)
     ++ map (max_allocation dv T) (dict_keys cost_per_kg)
     ++ map (warehouse_capacity grouped dv)
            (unique (map (fun row => fst (fst row)) grouped)))%list.

(** The objective is added first: a mode missing from [cost_per_kg] stops
    the script before any constraint is added. *)
Definition Model_Builder (data : list Shipment) : result LpProblem :=
  let grouped := grouped_data data in
  let dv := decision_vars grouped in
  obj <- build_objective grouped ;;
  ret {| variables := dv;
         objective := obj;
         constraints := build_constraints grouped dv (total_actual_weight data) |}.

(** *** What a model means *)

Definition eval (e : LpAffineExpression) (sigma : Var -> Q) : Q :=
  sum (map (fun t => snd t * sigma (fst t)) e).

Definition holds (sigma : Var -> Q) (c : LpConstraint) : Prop :=
  match c_sense c with
  | LpConstraintLE => eval (c_expr c) sigma <= c_rhs c
  | LpConstraintEQ => eval (c_expr c) sigma == c_rhs c
  | LpConstraintGE => c_rhs c <= eval (c_expr c) sigma
  end.

Definition feasible (p : LpProblem) (sigma : Var -> Q) : Prop :=
  Forall (fun v => 0 <= sigma v) (variables p) /\ Forall (holds sigma) (constraints p).

(** ** Solving and collecting results (lines 65-77) *)

Inductive LpStatus : Type :=
| LpStatusOptimal
| LpStatusNotSolved
| LpStatusInfeasible
| LpStatusUnbounded
| LpStatusUndefined.

(** What [problem.solve()] leaves behind: it returns a status and stores a
    [varValue] (a number or [None]) on every variable, or it raises. *)
Inductive SolveOutcome : Type :=
| Returned (status : LpStatus) (varValue : Var -> option Q)
| Raised.

Record Row : Type := {
  Warehouse : string;
  Mode : string;
  Weight : Q;
  Cost : Q
}.

(** One iteration of the loop of lines 70-76.  Both operands of the product
    are evaluated before it is taken: the subscript first, then [None * c]. *)
Definition result_row (varValue : Var -> option Q) (key : Var) : result Row :=
  c <- subscript cost_per_kg (snd key) ;;
  match varValue key with
  | None => raise TypeError
  | Some v => ret {| Warehouse := fst key; Mode := snd key; Weight := v; Cost := v * c |}
  end.

Definition collect_results (dv : list Var) (varValue : Var -> option Q)
  : result (list Row) :=
  mapM (result_row varValue) dv.

(** The status returned by [problem.solve()] on line 66 is discarded. *)
Definition Result_Extractor (dv : list Var) (o : SolveOutcome) : result (list Row) :=
  match o with
  | Raised => raise PulpSolverError
  | Returned _ varValue => collect_results dv varValue
  end.

(** [pulp.value(problem.objective)], line 147. *)
Fixpoint value (e : LpAffineExpression) (varValue : Var -> option Q) : option Q :=
  match e with
  | [] => Some 0
  | (v, x) :: e' =>
      match varValue v, value e' varValue with
      | Some a, Some s => Some (a * x + s)
      | _, _ => None
      end
  end.

(** The whole run, lines 19-77, over a solver given as a function. *)
Definition pipeline (solve : LpProblem -> SolveOutcome) (data : list Shipment)
  : result (list Row) :=
  problem <- Model_Builder data ;;
  Result_Extractor (variables problem) (solve problem).

(** *** Scenarios *)

Definition scenario_A : list Shipment :=
  [ {| Warehouse_block := Some "A"; Mode_of_Shipment := Some "Road"; Weight_in_gms := 100000 |} ].

Definition scenario_B : list Shipment :=
  [ {| Warehouse_block := Some "A"; Mode_of_Shipment := Some "Flight"; Weight_in_gms := 40000 |};
    {| Warehouse_block := Some "A"; Mode_of_Shipment := Some "Ship"; Weight_in_gms := 30000 |};
    {| Warehouse_block := Some "A"; Mode_of_Shipment := Some "Road"; Weight_in_gms := 30000 |} ].

(** A solver stub that reports infeasibility and leaves every variable at 0. *)
Definition reports_infeasible (_ : LpProblem) : SolveOutcome :=
  Returned LpStatusInfeasible (fun _ => Some 0).

(** A solver stub that reports an optimum with a fixed value on every variable. *)
Definition reports_optimal (x : Q) (_ : LpProblem) : SolveOutcome :=
  Returned LpStatusOptimal (fun _ => Some x).

(** Ascending key order, the order [groupby] leaves the groups in. *)
Definition key_lt (a b : Key) : Prop := key_compare a b = Lt.

(** A model for the three-mode scenario, as the builder returns it. *)
Definition scenario_B_problem : LpProblem :=
  Eval vm_compute in
    match Model_Builder scenario_B with
    | inr p => p
    | inl _ => {| variables := []; objective := []; constraints := [] |}
    end.

(** The model of Scenario A. *)
Definition scenario_A_problem : LpProblem :=
  Eval vm_compute in
    match Model_Builder scenario_A with
    | inr p => p
    | inl _ => {| variables := []; objective := []; constraints := [] |}
    end.

(** A data set in which one row has no warehouse label. *)
Definition with_missing_label : list Shipment :=
  [ {| Warehouse_block := Some "A"; Mode_of_Shipment := Some "Road";
       Weight_in_gms := 70000 |};
    {| Warehouse_block := None; Mode_of_Shipment := Some "Rail";
       Weight_in_gms := 30000 |} ].

(** A data set whose only row has no warehouse label. *)
Definition only_unlabelled : list Shipment :=
  [ {| Warehouse_block := None; Mode_of_Shipment := Some "Road";
       Weight_in_gms := 100000 |} ].

(** A data set with a mode the cost table does not have. *)
Definition with_unknown_mode : list Shipment :=
  [ {| Warehouse_block := Some "A"; Mode_of_Shipment := Some "Road"; Weight_in_gms := 100000 |};
    {| Warehouse_block := Some "B"; Mode_of_Shipment := Some "Rail"; Weight_in_gms := 5000 |} ].

(** ** Charts and summary (lines 79-159)

    Only the data handed to the drawing and printing calls is modelled,
    not the drawing and the text formatting. *)

(** [results_df[name]]: the frame built from the list of result dicts has
    their keys as columns; built from an empty list it has no column. *)
Definition column (name : string) (df : list Row) : result unit :=
  match df with
  | [] => raise (KeyError name)
  | _ :: _ => ret tt
  end.

(** [sorted(...)] on strings. *)
Fixpoint insert_sorted (x : string) (l : list string) : list string :=
  match l with
  | [] => [x]
  | y :: l' => if String.leb x y then x :: l else y :: insert_sorted x l'
  end.

Definition sorted (l : list string) : list string := fold_right insert_sorted [] l.

(** [groupby] on one string column, the groups in ascending key order. *)
Fixpoint add_to_group_by {V} (plus : V -> V -> V) (k : string) (v : V)
    (g : list (string * V)) : list (string * V) :=
  match g with
  | [] => [(k, v)]
  | (k', s) :: rest =>
      match String.compare k k' with
      | Lt => (k, v) :: g
      | Eq => (k', plus s v) :: rest
      | Gt => (k', s) :: add_to_group_by plus k v rest
      end
  end.

Definition plus2 (a b : Q * Q) : Q * Q := (fst a + fst b, snd a + snd b).

(** [mode_totals], line 107: per mode, the summed weight and the summed cost. *)
Definition mode_totals (df : list Row) : result (list (string * (Q * Q))) :=
  _ <- column "Mode" df ;;
  ret (fold_left (fun g r => add_to_group_by plus2 (Mode r) (Weight r, Cost r) g) df []).

(** [warehouse_totals], line 154. *)
Definition warehouse_totals (df : list Row) : result (list (string * Q)) :=
  _ <- column "Warehouse" df ;;
  ret (fold_left (fun g r => add_to_group_by Qplus (Warehouse r) (Weight r) g) df []).

(** [wh_data], line 156. *)
Definition wh_data (df : list Row) (wh : string) : list Row :=
  filter (fun r => String.eqb (Warehouse r) wh) df.

(** The rows listed by the loop of lines 155-159, warehouse by warehouse. *)
Definition warehouse_listing (df : list Row) : result (list (string * list Row)) :=
  totals <- warehouse_totals df ;;
  ret (map (fun wh => (wh, wh_data df wh)) (sorted (map fst totals))).

(** The mode lines of lines 150-151: mode, weight, share of the total, cost. *)
Definition mode_distribution (df : list Row) (T : Q) : result (list (string * Q * Q * Q)) :=
  totals <- mode_totals df ;;
  ret (map (fun t => (fst t, fst (snd t), fst (snd t) / T, snd (snd t))) totals).

(** One height of the stacked bars, lines 88-89. *)
Definition bar_height (df : list Row) (mode wh : string) : result Q :=
  _ <- column "Warehouse" df ;;
  ret (sum (map Weight
              (filter (fun r => String.eqb (Warehouse r) wh && String.eqb (Mode r) mode) df))).

Definition modes : list string := ["Flight"; "Ship"; "Road"].

(** [bottom += weights] *)
Fixpoint vec_add (a b : list Q) : list Q :=
  match a, b with
  | x :: a', y :: b' => (x + y) :: vec_add a' b'
  | _, _ => []
  end.

(** The loop of lines 87-97: per mode the bar heights and the level they
    are drawn from, and the level reached after the last mode. *)
Fixpoint stack_bars (df : list Row) (whs : list string) (ms : list string)
    (bottom : list Q) : result (list (string * list Q * list Q) * list Q) :=
  match ms with
  | [] => ret ([], bottom)
  | mode :: ms' =>
      weights <- mapM (bar_height df mode) whs ;;
      _ <- subscript cost_per_kg mode ;;
      rest <- stack_bars df whs ms' (vec_add bottom weights) ;;
      ret ((mode, weights, bottom) :: fst rest, snd rest)
  end.

Definition chart_warehouses (grouped : list Cell) : list string :=
  sorted (unique (map (fun row : Cell => fst (fst row)) grouped)).

Definition warehouse_chart (grouped : list Cell) (df : list Row)
  : result (list (string * list Q * list Q) * list Q) :=
  stack_bars df (chart_warehouses grouped) modes
             (repeat 0 (List.length (unique (map (fun row : Cell => fst (fst row)) grouped)))).

(** A plan for the three-mode scenario: Road at its cap, Flight at its
    floor, Ship the rest. *)
Definition plan_B (k : Var) : Q :=
  if has_mode "Road" k then 50 else if has_mode "Ship" k then 30 else 20.

(** The allocation read off the variables after a solve. *)
Definition assignment_of (varValue : Var -> option Q) (k : Var) : Q :=
  match varValue k with
  | Some v => v
  | None => 0
  end.

(** Strict order of the strings, the order of a one-column [groupby]. *)
Definition str_lt (a b : string) : Prop := String.compare a b = Lt.

(** The weight the rows give to one mode at one warehouse: a bar height. *)
Definition height (df : list Row) (mode wh : string) : Q :=
  sum (map Weight
         (filter (fun r => String.eqb (Warehouse r) wh && String.eqb (Mode r) mode) df)).

(** Order of the strings, not strict. *)
Definition str_le (a b : string) : Prop := String.compare a b <> Gt.

(** The historical allocation: every (warehouse, mode) pair keeps the
    weight aggregated for it. *)
Definition historical (grouped : list Cell) (k : Var) : Q :=
  sum (map snd (filter (fun c : Cell => key_eqb (fst c) k) grouped)).

(** * Properties *)

(** ** Sums *)

Lemma fold_left_Qplus_acc (l : list Q) (a : Q) : fold_left Qplus l a == a + sum l.
Proof.
  unfold sum. revert a.
  induction l as [|x l IH]; intros a; simpl.
  - lra.
  - rewrite (IH (a + x)), (IH (0 + x)). lra.
Qed.

Lemma sum_cons (x : Q) (l : list Q) : sum (x :: l) == x + sum l.
Proof.
  unfold sum at 1. simpl. rewrite fold_left_Qplus_acc. lra.
Qed.

Lemma sum_nil : sum [] == 0.
Proof. reflexivity. Qed.

Lemma sum_app (l1 l2 : list Q) : sum (l1 ++ l2) == sum l1 + sum l2.
Proof.
  induction l1 as [|x l1 IH]; simpl.
  - rewrite sum_nil. lra.
  - rewrite !sum_cons, IH. lra.
Qed.

(** ** Keys and their order *)

Lemma key_compare_eq (a b : Key) : key_compare a b = Eq -> a = b.
Proof.
  destruct a as [a1 a2], b as [b1 b2]. unfold key_compare. simpl.
  destruct (String.compare a1 b1) eqn:E1; try discriminate.
  intros E2.
  apply String_as_OT.cmp_eq in E1. apply String_as_OT.cmp_eq in E2.
  congruence.
Qed.

Lemma key_compare_refl (a : Key) : key_compare a a = Eq.
Proof.
  destruct a as [a1 a2]. unfold key_compare. simpl.
  assert (H1 : String.compare a1 a1 = Eq) by (apply String_as_OT.cmp_eq; reflexivity).
  assert (H2 : String.compare a2 a2 = Eq) by (apply String_as_OT.cmp_eq; reflexivity).
  rewrite H1. exact H2.
Qed.

Lemma key_compare_gt (a b : Key) : key_compare a b = Gt -> key_lt b a.
Proof.
  destruct a as [a1 a2], b as [b1 b2]. unfold key_lt, key_compare. simpl.
  rewrite (String.compare_antisym b1 a1), (String.compare_antisym b2 a2).
  destruct (String.compare a1 b1); simpl; try discriminate; auto.
  destruct (String.compare a2 b2); simpl; try discriminate; auto.
Qed.

Lemma key_lt_irrefl (a : Key) : ~ key_lt a a.
Proof.
  unfold key_lt. rewrite key_compare_refl. discriminate.
Qed.

Lemma key_lt_trans (a b c : Key) : key_lt a b -> key_lt b c -> key_lt a c.
Proof.
  destruct a as [a1 a2], b as [b1 b2], c as [c1 c2].
  unfold key_lt, key_compare. simpl.
  destruct (String.compare a1 b1) eqn:Eab; try discriminate;
    destruct (String.compare b1 c1) eqn:Ebc; try discriminate; intros Hab Hbc.
  - apply String_as_OT.cmp_eq in Eab, Ebc. subst.
    assert (H : String.compare c1 c1 = Eq) by (apply String_as_OT.cmp_eq; reflexivity).
    rewrite H.
    apply String_as_OT.cmp_lt. apply String_as_OT.cmp_lt in Hab, Hbc.
    eapply String_as_OT.lt_trans; eassumption.
  - apply String_as_OT.cmp_eq in Eab. subst. rewrite Ebc. reflexivity.
  - apply String_as_OT.cmp_eq in Ebc. subst. rewrite Eab. reflexivity.
  - assert (H : String.compare a1 c1 = Lt).
    { apply String_as_OT.cmp_lt. apply String_as_OT.cmp_lt in Eab, Ebc.
      eapply String_as_OT.lt_trans; eassumption. }
    rewrite H. reflexivity.
Qed.

Lemma key_eqb_eq (a b : Key) : key_eqb a b = true <-> a = b.
Proof.
  destruct a as [a1 a2], b as [b1 b2]. unfold key_eqb. simpl.
  rewrite andb_true_iff, !String.eqb_eq. split.
  - intros [-> ->]. reflexivity.
  - intros H. inversion H. auto.
Qed.

Lemma key_eqb_neq (a b : Key) : key_eqb a b = false <-> a <> b.
Proof.
  rewrite <- key_eqb_eq. destruct (key_eqb a b); split; congruence.
Qed.

(** ** The aggregation *)

Lemma add_to_group_sum (k : Key) (w : Q) (g : list Cell) :
  sum (map snd (add_to_group k w g)) == sum (map snd g) + w.
Proof.
  induction g as [|[k' s] g IH]; simpl.
  - rewrite sum_cons, sum_nil. lra.
  - destruct (key_compare k k'); simpl; rewrite !sum_cons.
    + lra.
    + lra.
    + rewrite IH. lra.
Qed.

Lemma observed_keys_cons (r : Shipment) (data : list Shipment) :
  observed_keys (r :: data)
  = match key_of r with
    | Some k => k :: observed_keys data
    | None => observed_keys data
    end.
Proof.
  unfold observed_keys. simpl. destruct (key_of r); reflexivity.
Qed.

Lemma In_observed_keys (data : list Shipment) (k : Key) :
  In k (observed_keys data) <-> exists r, In r data /\ key_of r = Some k.
Proof.
  unfold observed_keys. rewrite in_flat_map. split.
  - intros [r [Hr Hk]]. exists r. split; [exact Hr|].
    destruct (key_of r) as [k'|]; [|destruct Hk].
    destruct Hk as [->|[]]. reflexivity.
  - intros [r [Hr Hk]]. exists r. split; [exact Hr|].
    rewrite Hk. left. reflexivity.
Qed.

Lemma groupby_fold_sum (data : list Shipment) (g : list Cell) :
  sum (map snd (fold_left group_step data g))
  == sum (map snd g) + sum (map Weight_in_kg (filter (keyed (fun _ => true)) data)).
Proof.
  revert g. induction data as [|r data IH]; intros g; simpl.
  - rewrite sum_nil. lra.
  - rewrite IH. unfold group_step, keyed.
    destruct (key_of r); simpl; rewrite ?add_to_group_sum, ?sum_cons; lra.
Qed.

Lemma add_to_group_keys (k : Key) (w : Q) (g : list Cell) (x : Key) :
  In x (map fst (add_to_group k w g)) <-> x = k \/ In x (map fst g).
Proof.
  induction g as [|[k' s] g IH]; simpl.
  - intuition.
  - destruct (key_compare k k') eqn:E; simpl.
    + apply key_compare_eq in E. subst. intuition.
    + intuition.
    + rewrite IH. intuition.
Qed.

Lemma groupby_fold_keys (data : list Shipment) (g : list Cell) (x : Key) :
  In x (map fst (fold_left group_step data g))
  <-> In x (map fst g) \/ In x (observed_keys data).
Proof.
  revert g. induction data as [|r data IH]; intros g.
  - simpl. intuition.
  - simpl fold_left. rewrite IH, observed_keys_cons. unfold group_step.
    destruct (key_of r); simpl; rewrite ?add_to_group_keys; intuition.
Qed.

(** The groups are exactly the (warehouse, mode) pairs of the rows that
    have both labels. *)
Lemma grouped_data_keys (data : list Shipment) (x : Key) :
  In x (map fst (grouped_data data)) <-> In x (observed_keys data).
Proof.
  unfold grouped_data, groupby_sum. rewrite groupby_fold_keys. simpl. intuition.
Qed.

Lemma add_to_group_sorted (k : Key) (w : Q) (g : list Cell) :
  StronglySorted key_lt (map fst g) ->
  StronglySorted key_lt (map fst (add_to_group k w g)).
Proof.
  induction g as [|[k' s] g IH]; simpl; intros Hs.
  - constructor; constructor.
  - inversion Hs as [|? ? Hs' Hall]; subst.
    destruct (key_compare k k') eqn:E; simpl.
    + constructor; assumption.
    + constructor; [assumption|].
      constructor; [exact E|].
      rewrite Forall_forall in *. intros x Hx.
      eapply key_lt_trans; [exact E|]. auto.
    + constructor; [auto|].
      rewrite Forall_forall in *. intros x Hx.
      apply add_to_group_keys in Hx. destruct Hx as [->|Hx].
      * apply key_compare_gt. exact E.
      * auto.
Qed.

Lemma groupby_fold_sorted (data : list Shipment) (g : list Cell) :
  StronglySorted key_lt (map fst g) ->
  StronglySorted key_lt
    (map fst (fold_left group_step data g)).
Proof.
  revert g. induction data as [|r data IH]; intros g Hs; simpl.
  - exact Hs.
  - apply IH. unfold group_step.
    destruct (key_of r); [apply add_to_group_sorted|]; exact Hs.
Qed.

(** [groupby] yields its groups in ascending key order. *)
Lemma grouped_data_sorted (data : list Shipment) :
  StronglySorted key_lt (map fst (grouped_data data)).
Proof.
  apply groupby_fold_sorted. constructor.
Qed.

Lemma sorted_NoDup (l : list Key) : StronglySorted key_lt l -> NoDup l.
Proof.
  induction 1 as [|a l Hs IH Hall]; constructor; auto.
  intros Hin. rewrite Forall_forall in Hall.
  exact (key_lt_irrefl a (Hall a Hin)).
Qed.

(** Group keys are unique. *)
Lemma grouped_data_NoDup (data : list Shipment) : NoDup (map fst (grouped_data data)).
Proof.
  apply sorted_NoDup, grouped_data_sorted.
Qed.

(** ** Dicts built from duplicate-free indices *)

Lemma dict_setdefault_fresh (k : Key) (d : list Var) :
  ~ In k d -> dict_setdefault k d = (d ++ [k])%list.
Proof.
  induction d as [|k' d IH]; simpl; intros Hn.
  - reflexivity.
  - destruct (key_eqb k' k) eqn:E.
    + apply key_eqb_eq in E. subst. exfalso. auto.
    + rewrite IH by auto. reflexivity.
Qed.

Lemma LpVariable_dicts_fold (l d : list Key) :
  NoDup (d ++ l) -> fold_left (fun d k => dict_setdefault k d) l d = (d ++ l)%list.
Proof.
  revert d. induction l as [|k l IH]; intros d Hnd; simpl.
  - rewrite app_nil_r. reflexivity.
  - assert (Hk : ~ In k d).
    { apply NoDup_remove_2 in Hnd. intros Hin. apply Hnd. apply in_or_app. auto. }
    rewrite dict_setdefault_fresh by exact Hk.
    rewrite IH.
    + rewrite <- app_assoc. reflexivity.
    + rewrite <- app_assoc. exact Hnd.
Qed.

Lemma LpVariable_dicts_NoDup (l : list Key) : NoDup l -> LpVariable_dicts l = l.
Proof.
  intros Hnd. unfold LpVariable_dicts. rewrite LpVariable_dicts_fold; auto.
Qed.

(** One decision variable per aggregated cell, in the cells' order. *)
Lemma decision_vars_grouped (data : list Shipment) :
  decision_vars (grouped_data data) = map fst (grouped_data data).
Proof.
  apply LpVariable_dicts_NoDup, grouped_data_NoDup.
Qed.

Lemma addterm_fresh (v : Var) (x : Q) (e : LpAffineExpression) :
  ~ In v (map fst e) -> addterm v x e = (e ++ [(v, x)])%list.
Proof.
  induction e as [|[v' x'] e IH]; simpl; intros Hn.
  - reflexivity.
  - destruct (key_eqb v' v) eqn:E.
    + apply key_eqb_eq in E. subst. exfalso. auto.
    + rewrite IH by auto. reflexivity.
Qed.

Lemma lpSum_fold (terms e : list (Var * Q)) :
  NoDup (map fst (e ++ terms)) ->
  fold_left (fun e t => addterm (fst t) (snd t) e) terms e = (e ++ terms)%list.
Proof.
  revert e. induction terms as [|[v x] terms IH]; intros e Hnd; simpl.
  - rewrite app_nil_r. reflexivity.
  - assert (Hv : ~ In v (map fst e)).
    { rewrite map_app in Hnd. simpl in Hnd. apply NoDup_remove_2 in Hnd.
      intros Hin. apply Hnd. apply in_or_app. auto. }
    rewrite addterm_fresh by exact Hv.
    rewrite IH.
    + rewrite <- app_assoc. reflexivity.
    + rewrite <- app_assoc. exact Hnd.
Qed.

(** Summing terms over distinct variables keeps them as they are. *)
Lemma lpSum_NoDup (terms : list (Var * Q)) : NoDup (map fst terms) -> lpSum terms = terms.
Proof.
  intros Hnd. unfold lpSum. rewrite lpSum_fold; auto.
Qed.

Lemma NoDup_filter {A} (p : A -> bool) (l : list A) : NoDup l -> NoDup (filter p l).
Proof.
  induction 1 as [|a l Hn Hnd IH]; simpl.
  - constructor.
  - destruct (p a); auto. constructor; auto.
    rewrite filter_In. tauto.
Qed.

Lemma map_fst_unit_terms (l : list Var) : map fst (map (fun k : Var => (k, 1)) l) = l.
Proof.
  rewrite map_map. simpl. apply map_id.
Qed.

Lemma sum_vars_where_NoDup (p : Key -> bool) (dv : list Var) :
  NoDup dv -> sum_vars_where p dv = map (fun k => (k, 1)) (filter p dv).
Proof.
  intros Hnd. unfold sum_vars_where. apply lpSum_NoDup.
  rewrite map_fst_unit_terms. apply NoDup_filter. exact Hnd.
Qed.

(** The value of a plain sum of variables under an assignment. *)
Lemma eval_unit_terms (l : list Var) (sigma : Var -> Q) :
  eval (map (fun k => (k, 1)) l) sigma == sum (map sigma l).
Proof.
  unfold eval. induction l as [|k l IH]; simpl.
  - reflexivity.
  - rewrite !sum_cons, IH. simpl. lra.
Qed.

(** ** [unique] *)

Lemma unique_fold_In (l seen : list string) (x : string) :
  In x (fold_left (fun seen x => if existsb (String.eqb x) seen then seen
                                 else (seen ++ [x])%list) l seen)
  <-> In x seen \/ In x l.
Proof.
  revert seen. induction l as [|y l IH]; intros seen; simpl.
  - intuition.
  - rewrite IH. destruct (existsb (String.eqb y) seen) eqn:E.
    + apply existsb_exists in E. destruct E as [z [Hz Hyz]].
      apply String.eqb_eq in Hyz. subst z. intuition. subst. auto.
    + rewrite in_app_iff. simpl. intuition.
Qed.

Lemma unique_In (l : list string) (x : string) : In x (unique l) <-> In x l.
Proof.
  unfold unique. rewrite unique_fold_In. simpl. intuition.
Qed.

Lemma unique_fold_NoDup (l seen : list string) :
  NoDup seen ->
  NoDup (fold_left (fun seen x => if existsb (String.eqb x) seen then seen
                                  else (seen ++ [x])%list) l seen).
Proof.
  revert seen. induction l as [|x l IH]; intros seen Hnd; simpl; [exact Hnd|].
  apply IH. destruct (existsb (String.eqb x) seen) eqn:E; [exact Hnd|].
  apply NoDup_app; [exact Hnd|repeat constructor; intros []|].
  intros y Hy [Heq|[]]. subst y.
  assert (Hex : existsb (String.eqb x) seen = true).
  { apply existsb_exists. exists x. split; [exact Hy|apply String.eqb_refl]. }
  congruence.
Qed.

Lemma unique_NoDup (l : list string) : NoDup (unique l).
Proof. apply unique_fold_NoDup. constructor. Qed.

(** ** The model that is built *)

Lemma Model_Builder_inr (data : list Shipment) (problem : LpProblem) :
  Model_Builder data = inr problem ->
  variables problem = map fst (grouped_data data) /\
  constraints problem =
    build_constraints (grouped_data data) (map fst (grouped_data data))
                      (total_actual_weight data).
Proof.
  unfold Model_Builder. rewrite decision_vars_grouped.
  destruct (build_objective (grouped_data data)) as [e|obj]; simpl; intros H.
  - discriminate.
  - inversion H. subst. simpl. auto.
Qed.

Lemma variables_NoDup (data : list Shipment) (problem : LpProblem) :
  Model_Builder data = inr problem -> NoDup (variables problem).
Proof.
  intros H. apply Model_Builder_inr in H. destruct H as [-> _].
  apply grouped_data_NoDup.
Qed.

Lemma add_to_group_warehouse_weight (w : string) (k : Key) (x : Q) (g : list Cell) :
  warehouse_weight (add_to_group k x g) w
  == warehouse_weight g w + (if has_warehouse w k then x else 0).
Proof.
  unfold warehouse_weight.
  induction g as [|[k' s] g IH]; simpl.
  - destruct (has_warehouse w k); simpl; rewrite ?sum_cons, ?sum_nil; lra.
  - destruct (key_compare k k') eqn:E; simpl.
    + apply key_compare_eq in E. subst k'.
      destruct (has_warehouse w k); simpl; rewrite ?sum_cons; lra.
    + destruct (has_warehouse w k), (has_warehouse w k'); simpl;
        rewrite ?sum_cons; simpl; rewrite ?sum_cons; lra.
    + destruct (has_warehouse w k'); simpl; rewrite ?sum_cons, IH; lra.
Qed.

Lemma groupby_fold_warehouse_weight (w : string) (data : list Shipment) (g : list Cell) :
  warehouse_weight
    (fold_left group_step data g) w
  == warehouse_weight g w
     + sum (map Weight_in_kg (filter (keyed (has_warehouse w)) data)).
Proof.
  revert g. induction data as [|r data IH]; intros g; simpl.
  - rewrite sum_nil. lra.
  - rewrite IH. unfold group_step, keyed.
    destruct (key_of r) as [k|]; [|lra].
    rewrite add_to_group_warehouse_weight.
    destruct (has_warehouse w k); simpl; rewrite ?sum_cons; lra.
Qed.

(** The weight aggregated at a warehouse is the weight of its shipments,
    those that have both labels. *)
Lemma warehouse_weight_historical (data : list Shipment) (w : string) :
  warehouse_weight (grouped_data data) w
  == sum (map Weight_in_kg (filter (keyed (has_warehouse w)) data)).
Proof.
  unfold grouped_data, groupby_sum. rewrite groupby_fold_warehouse_weight.
  unfold warehouse_weight. simpl. rewrite sum_nil. lra.
Qed.

Lemma scenario_B_built : Model_Builder scenario_B = inr scenario_B_problem.
Proof. vm_compute. reflexivity. Qed.

Lemma scenario_A_built : Model_Builder scenario_A = inr scenario_A_problem.
Proof. vm_compute. reflexivity. Qed.

(** ** Conservation and the constraints *)

Lemma sum_filter_split {A} (f : A -> Q) (p : A -> bool) (l : list A) :
  sum (map f l)
  == sum (map f (filter p l)) + sum (map f (filter (fun a => negb (p a)) l)).
Proof.
  induction l as [|a l IH]; simpl.
  - rewrite sum_nil. lra.
  - destruct (p a); simpl; rewrite !sum_cons, IH; lra.
Qed.

Lemma filter_all {A} (p : A -> bool) (l : list A) :
  (forall a, In a l -> p a = true) -> filter p l = l.
Proof.
  induction l as [|a l IH]; intros H; simpl; [reflexivity|].
  rewrite (H a) by (left; reflexivity).
  rewrite IH by (intros; apply H; right; assumption). reflexivity.
Qed.

(** C5 fails on the code: a row without a warehouse label is in no group,
    but its weight is in the grand total; the cells hold 70 of 100. *)
Lemma dropped_rows_break_conservation :
  ~ (sum (map snd (grouped_data with_missing_label))
     == total_actual_weight with_missing_label).
Proof.
  vm_compute. discriminate.
Qed.

(** C5, as the code behaves. The summed weights of the aggregated cells add
    up to the weight of the records that have both labels; the grand total
    is that plus the weight of the records with a missing label, which the
    grouping drops. When every record has both labels, the cells add up to
    the grand total. *)
Theorem aggregation_conserves_keyed_weight (data : list Shipment) :
  sum (map snd (grouped_data data))
  == sum (map Weight_in_kg (filter (keyed (fun _ => true)) data))
  /\ total_actual_weight data
     == sum (map snd (grouped_data data))
        + sum (map Weight_in_kg
                 (filter (fun r => negb (keyed (fun _ => true) r)) data))
  /\ ((forall r, In r data -> key_of r <> None) ->
      sum (map snd (grouped_data data)) == total_actual_weight data).
Proof.
  assert (Hcells : sum (map snd (grouped_data data))
                   == sum (map Weight_in_kg (filter (keyed (fun _ => true)) data))).
  { unfold grouped_data, groupby_sum.
    rewrite groupby_fold_sum. simpl. rewrite sum_nil. lra. }
  split; [exact Hcells|]. split.
  - rewrite Hcells. unfold total_actual_weight.
    apply (sum_filter_split Weight_in_kg (keyed (fun _ => true)) data).
  - intros Hall. rewrite Hcells. unfold total_actual_weight.
    rewrite filter_all; [reflexivity|].
    intros r Hr. unfold keyed. specialize (Hall r Hr).
    destruct (key_of r); [reflexivity|contradiction].
Qed.

Lemma aggregation_conserves_keyed_weight_witness :
  (forall r, In r scenario_B -> key_of r <> None)
  /\ sum (map snd (grouped_data scenario_B)) == total_actual_weight scenario_B.
Proof.
  assert (Hall : forall r, In r scenario_B -> key_of r <> None).
  { intros r [<-|[<-|[<-|[]]]]; discriminate. }
  split; [exact Hall|].
  exact (proj2 (proj2 (aggregation_conserves_keyed_weight scenario_B)) Hall).
Defined.

(** C1. Every model the builder returns contains the mass-balance
    constraint, an equality whose left-hand side is the sum of all decision
    variables and whose right-hand side is the grand total weight: an
    assignment meets it exactly when the variables' values add up to the
    total. *)
Theorem mass_balance_is_equality (data : list Shipment) (problem : LpProblem) :
  Model_Builder data = inr problem ->
  In (total_weight_constraint (variables problem) (total_actual_weight data))
     (constraints problem)
  /\ c_sense (total_weight_constraint (variables problem) (total_actual_weight data))
     = LpConstraintEQ
  /\ c_expr (total_weight_constraint (variables problem) (total_actual_weight data))
     = map (fun k => (k, 1)) (variables problem)
  /\ forall sigma,
       holds sigma (total_weight_constraint (variables problem) (total_actual_weight data))
       <-> sum (map sigma (variables problem)) == total_actual_weight data.
Proof.
  intros H. pose proof (variables_NoDup _ _ H) as Hnd.
  apply Model_Builder_inr in H. destruct H as [Hv Hc].
  assert (He : c_expr (total_weight_constraint (variables problem) (total_actual_weight data))
               = map (fun k => (k, 1)) (variables problem)).
  { simpl. apply lpSum_NoDup. rewrite map_fst_unit_terms. exact Hnd. }
  repeat split.
  - rewrite Hc, <- Hv. unfold build_constraints. simpl. left. reflexivity.
  - exact He.
  - unfold holds. rewrite He. simpl. rewrite eval_unit_terms. auto.
  - unfold holds. rewrite He. simpl. rewrite eval_unit_terms. auto.
Qed.

Lemma mass_balance_is_equality_witness :
  Model_Builder scenario_B = inr scenario_B_problem
  /\ In (total_weight_constraint (variables scenario_B_problem)
                                 (total_actual_weight scenario_B))
        (constraints scenario_B_problem).
Proof.
  split.
  - vm_compute. reflexivity.
  - apply (mass_balance_is_equality scenario_B scenario_B_problem).
    vm_compute. reflexivity.
Defined.

Lemma holds_min_allocation (dv : list Var) (T : Q) (mode : string) (sigma : Var -> Q) :
  NoDup dv ->
  holds sigma (min_allocation dv T mode)
  <-> 0.2 * T <= sum (map sigma (filter (has_mode mode) dv)).
Proof.
  intros Hnd. unfold holds. simpl.
  rewrite sum_vars_where_NoDup by exact Hnd. rewrite eval_unit_terms. tauto.
Qed.

Lemma holds_max_allocation (dv : list Var) (T : Q) (mode : string) (sigma : Var -> Q) :
  NoDup dv ->
  holds sigma (max_allocation dv T mode)
  <-> sum (map sigma (filter (has_mode mode) dv)) <= 0.5 * T.
Proof.
  intros Hnd. unfold holds. simpl.
  rewrite sum_vars_where_NoDup by exact Hnd. rewrite eval_unit_terms. tauto.
Qed.

Lemma holds_warehouse_capacity (grouped : list Cell) (dv : list Var) (w : string)
    (sigma : Var -> Q) :
  NoDup dv ->
  holds sigma (warehouse_capacity grouped dv w)
  <-> sum (map sigma (filter (has_warehouse w) dv)) <= 1.1 * warehouse_weight grouped w.
Proof.
  intros Hnd. unfold holds. simpl.
  rewrite sum_vars_where_NoDup by exact Hnd. rewrite eval_unit_terms. tauto.
Qed.

(** C2. For every mode that is a key of the cost table, whether or not the
    data has it, the model contains a lower bound and an upper bound on the
    sum of the decision variables of that mode: at least 0.2 times and at
    most 0.5 times the grand total weight. *)
Theorem mode_share_bounds (data : list Shipment) (problem : LpProblem) (mode : string) :
  Model_Builder data = inr problem ->
  In mode (dict_keys cost_per_kg) ->
  (In (min_allocation (variables problem) (total_actual_weight data) mode)
      (constraints problem)
   /\ forall sigma,
        holds sigma (min_allocation (variables problem) (total_actual_weight data) mode)
        <-> 0.2 * total_actual_weight data
            <= sum (map sigma (filter (has_mode mode) (variables problem))))
  /\
  (In (max_allocation (variables problem) (total_actual_weight data) mode)
      (constraints problem)
   /\ forall sigma,
        holds sigma (max_allocation (variables problem) (total_actual_weight data) mode)
        <-> sum (map sigma (filter (has_mode mode) (variables problem)))
            <= 0.5 * total_actual_weight data).
Proof.
  intros H Hmode. pose proof (variables_NoDup _ _ H) as Hnd.
  apply Model_Builder_inr in H. destruct H as [Hv Hc].
  split; split.
  - rewrite Hc, <- Hv. unfold build_constraints.
    apply in_or_app. right. apply in_or_app. left.
    apply in_map. exact Hmode.
  - intros sigma. apply holds_min_allocation. exact Hnd.
  - rewrite Hc, <- Hv. unfold build_constraints.
    apply in_or_app. right. apply in_or_app. right. apply in_or_app. left.
    apply in_map. exact Hmode.
  - intros sigma. apply holds_max_allocation. exact Hnd.
Qed.

(** The bounds for Flight are in the model of a data set that has no
    Flight shipment. *)
Lemma mode_share_bounds_witness :
  Model_Builder scenario_A = inr scenario_A_problem
  /\ In "Flight" (dict_keys cost_per_kg)
  /\ In (min_allocation (variables scenario_A_problem) (total_actual_weight scenario_A)
                        "Flight")
        (constraints scenario_A_problem)
  /\ In (max_allocation (variables scenario_A_problem) (total_actual_weight scenario_A)
                        "Flight")
        (constraints scenario_A_problem).
Proof.
  assert (Hb : Model_Builder scenario_A = inr scenario_A_problem)
    by (vm_compute; reflexivity).
  assert (Hm : In "Flight" (dict_keys cost_per_kg)) by (simpl; auto).
  destruct (mode_share_bounds scenario_A scenario_A_problem "Flight" Hb Hm)
    as [[Hlo _] [Hhi _]].
  repeat split; assumption.
Defined.

(** C3. For every warehouse of the aggregated data the model contains an
    upper bound on the sum of the decision variables of that warehouse: 1.1
    times the weight aggregated at the warehouse, which is the weight of
    the warehouse's historical shipments, those that have both labels. *)
Theorem warehouse_capacity_bound (data : list Shipment) (problem : LpProblem)
    (warehouse : string) :
  Model_Builder data = inr problem ->
  In warehouse (map (fun row : Cell => fst (fst row)) (grouped_data data)) ->
  In (warehouse_capacity (grouped_data data) (variables problem) warehouse)
     (constraints problem)
  /\ (forall sigma,
        holds sigma (warehouse_capacity (grouped_data data) (variables problem) warehouse)
        <-> sum (map sigma (filter (has_warehouse warehouse) (variables problem)))
            <= 1.1 * warehouse_weight (grouped_data data) warehouse)
  /\ warehouse_weight (grouped_data data) warehouse
     == sum (map Weight_in_kg
               (filter (keyed (has_warehouse warehouse)) data)).
Proof.
  intros H Hw. pose proof (variables_NoDup _ _ H) as Hnd.
  apply Model_Builder_inr in H. destruct H as [Hv Hc].
  split; [|split].
  - rewrite Hc, <- Hv. unfold build_constraints.
    apply in_or_app. right. apply in_or_app. right. apply in_or_app. right.
    apply in_map. apply unique_In. exact Hw.
  - intros sigma. apply holds_warehouse_capacity. exact Hnd.
  - apply warehouse_weight_historical.
Qed.

Lemma warehouse_capacity_bound_witness :
  Model_Builder scenario_B = inr scenario_B_problem
  /\ In "A" (map (fun row : Cell => fst (fst row)) (grouped_data scenario_B))
  /\ In (warehouse_capacity (grouped_data scenario_B) (variables scenario_B_problem) "A")
        (constraints scenario_B_problem).
Proof.
  assert (Hb : Model_Builder scenario_B = inr scenario_B_problem)
    by (vm_compute; reflexivity).
  assert (Hw : In "A" (map (fun row : Cell => fst (fst row)) (grouped_data scenario_B)))
    by (vm_compute; auto).
  repeat split; try assumption.
  apply (warehouse_capacity_bound scenario_B scenario_B_problem "A" Hb Hw).
Defined.

(** ** Objective and result rows *)

Lemma mapM_inr_cons {A B} (f : A -> result B) (a : A) (l : list A) (bs : list B) :
  mapM f (a :: l) = inr bs ->
  exists b bs', f a = inr b /\ mapM f l = inr bs' /\ bs = b :: bs'.
Proof.
  simpl. destruct (f a) as [e|b]; simpl; [discriminate|].
  destruct (mapM f l) as [e|bs']; simpl; [discriminate|].
  intros H. inversion H. eauto.
Qed.

Lemma objective_term_inr (row : Cell) (t : Var * Q) :
  objective_term row = inr t ->
  fst t = fst row /\ dict_get cost_per_kg (snd (fst row)) = Some (snd t).
Proof.
  unfold objective_term, subscript.
  destruct (dict_get cost_per_kg (snd (fst row))) as [c|]; simpl; [|discriminate].
  intros H. inversion H. auto.
Qed.

Lemma result_row_inr (varValue : Var -> option Q) (k : Var) (r : Row) :
  result_row varValue k = inr r ->
  exists c, dict_get cost_per_kg (snd k) = Some c
            /\ varValue k = Some (Weight r)
            /\ Warehouse r = fst k /\ Mode r = snd k
            /\ Cost r = Weight r * c.
Proof.
  unfold result_row, subscript.
  destruct (dict_get cost_per_kg (snd k)) as [c|]; simpl; [|discriminate].
  destruct (varValue k) as [v|]; simpl; [|discriminate].
  intros H. inversion H. simpl. eauto 6.
Qed.

(** The objective's value at the solver's values is the sum of the rows' costs. *)
Lemma value_objective_rows (varValue : Var -> option Q) (grouped : list Cell) :
  forall terms rows,
    mapM objective_term grouped = inr terms ->
    collect_results (map fst grouped) varValue = inr rows ->
    exists obj, value terms varValue = Some obj /\ obj == sum (map Cost rows).
Proof.
  unfold collect_results.
  induction grouped as [|row grouped IH]; intros terms rows Ht Hr.
  - simpl in Ht, Hr. inversion Ht. inversion Hr. subst. simpl.
    exists 0. split; reflexivity.
  - apply mapM_inr_cons in Ht. destruct Ht as [t [terms' [Hft [Ht' ->]]]].
    change (map fst (row :: grouped)) with (fst row :: map fst grouped) in Hr.
    apply mapM_inr_cons in Hr. destruct Hr as [r [rows' [Hfr [Hr' ->]]]].
    destruct (IH _ _ Ht' Hr') as [obj' [Hv Ho]].
    apply objective_term_inr in Hft. destruct Hft as [Hk Hc].
    apply result_row_inr in Hfr. destruct Hfr as [c [Hc' [Hval [_ [_ Hcost]]]]].
    rewrite Hc in Hc'. inversion Hc'. subst c.
    destruct t as [v x]. simpl in Hk, Hcost, Hc. subst v.
    simpl. rewrite Hval, Hv.
    eexists. split; [reflexivity|].
    rewrite sum_cons, Hcost, Ho. reflexivity.
Qed.

Lemma collect_results_rows (varValue : Var -> option Q) (dv : list Var) :
  forall rows,
    collect_results dv varValue = inr rows ->
    Forall (fun r => exists c, dict_get cost_per_kg (Mode r) = Some c
                               /\ varValue (Warehouse r, Mode r) = Some (Weight r)
                               /\ Cost r = Weight r * c) rows
    /\ map (fun r => (Warehouse r, Mode r)) rows = dv.
Proof.
  unfold collect_results.
  induction dv as [|k dv IH]; intros rows Hr.
  - simpl in Hr. inversion Hr. split; constructor.
  - apply mapM_inr_cons in Hr. destruct Hr as [r [rows' [Hfr [Hr' ->]]]].
    destruct (IH _ Hr') as [Hall Hkeys].
    apply result_row_inr in Hfr. destruct Hfr as [c [Hc [Hval [Hw [Hm Hcost]]]]].
    assert (Hk : (Warehouse r, Mode r) = k) by (destruct k; simpl in *; congruence).
    split.
    + constructor; [|exact Hall]. exists c. rewrite Hk, Hm. auto.
    + simpl. rewrite Hk, Hkeys. reflexivity.
Qed.

Lemma mapM_objective_keys (grouped : list Cell) :
  forall terms, mapM objective_term grouped = inr terms -> map fst terms = map fst grouped.
Proof.
  induction grouped as [|row grouped IH]; intros terms Ht.
  - simpl in Ht. inversion Ht. reflexivity.
  - apply mapM_inr_cons in Ht. destruct Ht as [t [terms' [Hft [Ht' ->]]]].
    apply objective_term_inr in Hft. destruct Hft as [Hk _].
    simpl. rewrite Hk, (IH _ Ht'). reflexivity.
Qed.

Lemma Model_Builder_objective (data : list Shipment) (problem : LpProblem) :
  Model_Builder data = inr problem ->
  mapM objective_term (grouped_data data) = inr (objective problem).
Proof.
  unfold Model_Builder, build_objective.
  destruct (mapM objective_term (grouped_data data)) as [e|terms] eqn:Ht; simpl.
  - discriminate.
  - intros H. inversion H. simpl. f_equal. symmetry. apply lpSum_NoDup.
    rewrite (mapM_objective_keys _ _ Ht). apply grouped_data_NoDup.
Qed.

(** C4. Whenever a run yields result rows, each row's cost is its weight
    times the cost-table entry of its mode, its weight is the value the
    solver left on the row's variable, and the value of the objective at
    the solver's values equals the sum of the rows' costs. *)
Theorem cost_consistency (solve : LpProblem -> SolveOutcome) (data : list Shipment)
    (problem : LpProblem) (status : LpStatus) (varValue : Var -> option Q)
    (rows : list Row) :
  Model_Builder data = inr problem ->
  solve problem = Returned status varValue ->
  pipeline solve data = inr rows ->
  Forall (fun r => exists c, dict_get cost_per_kg (Mode r) = Some c
                             /\ varValue (Warehouse r, Mode r) = Some (Weight r)
                             /\ Cost r = Weight r * c) rows
  /\ exists obj, value (objective problem) varValue = Some obj
                 /\ obj == sum (map Cost rows).
Proof.
  intros Hb Hs Hp.
  unfold pipeline in Hp. rewrite Hb in Hp. simpl in Hp. rewrite Hs in Hp. simpl in Hp.
  split.
  - apply (collect_results_rows varValue (variables problem)). exact Hp.
  - apply Model_Builder_inr in Hb as Hv. destruct Hv as [Hv _]. rewrite Hv in Hp.
    eapply value_objective_rows; [|exact Hp].
    apply Model_Builder_objective. exact Hb.
Qed.

Lemma cost_consistency_witness :
  Model_Builder scenario_B = inr scenario_B_problem
  /\ reports_optimal 30 scenario_B_problem = Returned LpStatusOptimal (fun _ => Some 30)
  /\ pipeline (reports_optimal 30) scenario_B
     = inr [ {| Warehouse := "A"; Mode := "Flight"; Weight := 30; Cost := 30 * 20 |};
             {| Warehouse := "A"; Mode := "Road"; Weight := 30; Cost := 30 * 5 |};
             {| Warehouse := "A"; Mode := "Ship"; Weight := 30; Cost := 30 * 10 |} ]
  /\ exists obj, value (objective scenario_B_problem) (fun _ => Some 30) = Some obj
                 /\ obj == 30 * 20 + 30 * 5 + 30 * 10.
Proof.
  assert (Hb : Model_Builder scenario_B = inr scenario_B_problem)
    by (vm_compute; reflexivity).
  assert (Hs : reports_optimal 30 scenario_B_problem
               = Returned LpStatusOptimal (fun _ => Some 30)) by reflexivity.
  assert (Hp : pipeline (reports_optimal 30) scenario_B
     = inr [ {| Warehouse := "A"; Mode := "Flight"; Weight := 30; Cost := 30 * 20 |};
             {| Warehouse := "A"; Mode := "Road"; Weight := 30; Cost := 30 * 5 |};
             {| Warehouse := "A"; Mode := "Ship"; Weight := 30; Cost := 30 * 10 |} ])
    by reflexivity.
  repeat split; try assumption.
  destruct (cost_consistency _ _ _ _ _ _ Hb Hs Hp) as [_ [obj [Hv Ho]]].
  exists obj. split; [exact Hv|].
  rewrite Ho. unfold sum. simpl. lra.
Defined.

(** ** Empty input *)

(** C6 fails on the code: an empty record sequence is not rejected, the
    builder returns a model. *)
Lemma empty_input_is_not_rejected : ~ (exists e : exn, Model_Builder [] = inl e).
Proof.
  intros [e H]. vm_compute in H. discriminate.
Qed.

(** C6, as the code behaves. On an empty record sequence the aggregation yields no
    cell and a grand total of 0, and the builder goes on to return a model
    with no decision variable, an empty objective and seven constraints
    with empty left-hand sides and right-hand side 0 (the mass balance and
    the two bounds of each of the three modes), which every assignment
    satisfies; the run then yields no row, whatever status and values the
    solver returns. *)
Theorem empty_input_builds_zero_model :
  grouped_data [] = []
  /\ total_actual_weight [] == 0
  /\ Model_Builder []
     = inr {| variables := [];
              objective := [];
              constraints :=
                [ total_weight_constraint [] (total_actual_weight []);
                  min_allocation [] (total_actual_weight []) "Flight";
                  min_allocation [] (total_actual_weight []) "Ship";
                  min_allocation [] (total_actual_weight []) "Road";
                  max_allocation [] (total_actual_weight []) "Flight";
                  max_allocation [] (total_actual_weight []) "Ship";
                  max_allocation [] (total_actual_weight []) "Road" ] |}
  /\ Forall (fun c => c_expr c = [] /\ c_rhs c == 0)
            (build_constraints (grouped_data []) (decision_vars (grouped_data []))
                               (total_actual_weight []))
  /\ (forall problem sigma, Model_Builder [] = inr problem -> feasible problem sigma)
  /\ (forall status varValue, pipeline (fun _ => Returned status varValue) [] = inr []).
Proof.
  split; [reflexivity|]. split; [reflexivity|]. split; [reflexivity|].
  split.
  - repeat constructor.
  - split.
    + intros problem sigma H. inversion H. subst. unfold feasible. simpl. split.
      * constructor.
      * repeat constructor; unfold holds; simpl; vm_compute; discriminate.
    + intros status varValue. reflexivity.
Qed.

Lemma empty_input_builds_zero_model_witness :
  exists problem, Model_Builder [] = inr problem /\ feasible problem (fun _ => 0).
Proof.
  eexists. split.
  - reflexivity.
  - apply (proj1 (proj2 (proj2 (proj2 (proj2 empty_input_builds_zero_model))))).
    reflexivity.
Defined.

(** ** Outcomes other than Optimal *)

(** C7 fails on the code: with an Infeasible status the extractor still
    produces the row of the variable. *)
Lemma infeasible_status_still_yields_rows :
  Result_Extractor [("A", "Road")] (Returned LpStatusInfeasible (fun _ => Some 0))
  = inr [ {| Warehouse := "A"; Mode := "Road"; Weight := 0; Cost := 0 * 5 |} ].
Proof. reflexivity. Qed.

(** C7, as the code behaves. The extractor does not look at the solve status: for any
    status it collects the rows from the values the solver left on the
    variables, exactly as it does for Optimal. Its result is all or
    nothing: a row for every decision variable, in the variables' order,
    or an exception and no row; an exception raised by the solver call
    itself ends the run with no row. *)
Theorem extractor_ignores_status (dv : list Var) (status : LpStatus)
    (varValue : Var -> option Q) :
  Result_Extractor dv (Returned status varValue)
  = Result_Extractor dv (Returned LpStatusOptimal varValue)
  /\ match Result_Extractor dv (Returned status varValue) with
     | inr rows => map (fun r => (Warehouse r, Mode r)) rows = dv
     | inl e => e = TypeError \/ exists m, e = KeyError m
     end
  /\ Result_Extractor dv Raised = inl PulpSolverError.
Proof.
  split; [reflexivity|]. split; [|reflexivity].
  simpl. destruct (collect_results dv varValue) as [e|rows] eqn:E.
  - revert e E. unfold collect_results.
    induction dv as [|k dv IH]; intros e E; simpl in E.
    + discriminate.
    + unfold result_row at 1 in E. unfold subscript in E.
      destruct (dict_get cost_per_kg (snd k)); simpl in E.
      * destruct (varValue k); simpl in E.
        -- destruct (mapM (result_row varValue) dv) as [e'|rows'] eqn:E'; simpl in E.
           ++ inversion E. subst. apply IH. reflexivity.
           ++ discriminate.
        -- inversion E. auto.
      * inversion E. eauto.
  - apply collect_results_rows in E. tauto.
Qed.

(** ** Scenario A *)

(** C8 fails on the code: on Scenario A a solver that reports
    infeasibility does not make the run end in an error. *)
Lemma scenario_A_reports_no_error :
  ~ (exists e : exn, pipeline reports_infeasible scenario_A = inl e).
Proof.
  intros [e H]. vm_compute in H. discriminate.
Qed.

(** C8, as the code behaves. The model built for Scenario A is infeasible: no
    assignment satisfies it, the minimum-allocation constraints of Flight
    and Ship having no variable on their left-hand side and 20 on their
    right-hand side. The run does not report that: whatever status the
    solver returns, when it leaves a value on the single variable the run
    yields that variable's row with this value. *)
Theorem scenario_A_infeasible_but_unreported :
  Model_Builder scenario_A = inr scenario_A_problem
  /\ In (min_allocation (variables scenario_A_problem) (total_actual_weight scenario_A)
                        "Flight")
        (constraints scenario_A_problem)
  /\ c_expr (min_allocation (variables scenario_A_problem)
                            (total_actual_weight scenario_A) "Flight") = []
  /\ c_rhs (min_allocation (variables scenario_A_problem)
                           (total_actual_weight scenario_A) "Flight") == 20
  /\ (forall sigma, ~ feasible scenario_A_problem sigma)
  /\ (forall status v,
        pipeline (fun _ => Returned status (fun _ => Some v)) scenario_A
        = inr [ {| Warehouse := "A"; Mode := "Road"; Weight := v; Cost := v * 5 |} ])
  /\ In (min_allocation (variables scenario_A_problem) (total_actual_weight scenario_A)
                        "Ship")
        (constraints scenario_A_problem)
  /\ c_expr (min_allocation (variables scenario_A_problem)
                            (total_actual_weight scenario_A) "Ship") = []
  /\ c_rhs (min_allocation (variables scenario_A_problem)
                           (total_actual_weight scenario_A) "Ship") == 20.
Proof.
  split; [vm_compute; reflexivity|].
  split; [vm_compute; auto|].
  split; [reflexivity|].
  split; [vm_compute; reflexivity|].
  split; [|split; [|split; [|split]]].
  - intros sigma [_ Hc]. unfold scenario_A_problem in Hc. simpl in Hc.
    inversion Hc as [|c1 l1 _ Hc1]. subst.
    inversion Hc1 as [|c2 l2 Hflight _]. subst.
    unfold holds in Hflight. simpl in Hflight.
    vm_compute in Hflight. apply Hflight. reflexivity.
  - intros status v. reflexivity.
  - vm_compute. auto.
  - reflexivity.
  - vm_compute. reflexivity.
Qed.

(** ** Cost-table lookups *)

Lemma dict_get_Some_iff {V} (d : dict V) (k : string) :
  In k (dict_keys d) <-> exists v, dict_get d k = Some v.
Proof.
  induction d as [|[k' v] d IH]; simpl.
  - split; [tauto|]. intros [v H]. discriminate.
  - destruct (String.eqb k' k) eqn:E.
    + apply String.eqb_eq in E. split; eauto.
    + apply String.eqb_neq in E. rewrite <- IH. tauto.
Qed.

Lemma subscript_known {V} (d : dict V) (k : string) :
  In k (dict_keys d) -> exists v, subscript d k = inr v.
Proof.
  intros H. apply dict_get_Some_iff in H. destruct H as [v H].
  exists v. unfold subscript. rewrite H. reflexivity.
Qed.

Lemma subscript_unknown {V} (d : dict V) (k : string) :
  ~ In k (dict_keys d) -> subscript d k = inl (KeyError k).
Proof.
  intros H. unfold subscript.
  destruct (dict_get d k) as [v|] eqn:E; [|reflexivity].
  exfalso. apply H. apply dict_get_Some_iff. eauto.
Qed.

Lemma In_dict_keys_dec {V} (d : dict V) (k : string) :
  {In k (dict_keys d)} + {~ In k (dict_keys d)}.
Proof. apply in_dec, string_dec. Qed.

(** With every mode known, the objective is built. *)
Lemma build_objective_known (grouped : list Cell) :
  (forall row, In row grouped -> In (snd (fst row)) (dict_keys cost_per_kg)) ->
  exists terms, mapM objective_term grouped = inr terms.
Proof.
  induction grouped as [|row grouped IH]; intros H.
  - exists []. reflexivity.
  - destruct (subscript_known cost_per_kg (snd (fst row))) as [c Hc].
    { apply H. left. reflexivity. }
    destruct IH as [terms Ht].
    { intros. apply H. right. assumption. }
    simpl. unfold objective_term at 1. rewrite Hc. simpl. rewrite Ht. simpl. eauto.
Qed.

(** With some mode unknown, building the objective raises [KeyError] on
    the first such mode. *)
Lemma build_objective_unknown (grouped : list Cell) :
  (exists row, In row grouped /\ ~ In (snd (fst row)) (dict_keys cost_per_kg)) ->
  exists row, In row grouped /\ ~ In (snd (fst row)) (dict_keys cost_per_kg)
              /\ mapM objective_term grouped = inl (KeyError (snd (fst row))).
Proof.
  induction grouped as [|row grouped IH]; intros [bad [Hin Hbad]].
  - destruct Hin.
  - destruct (In_dict_keys_dec cost_per_kg (snd (fst row))) as [Hk|Hk].
    + destruct Hin as [->|Hin]; [contradiction|].
      destruct IH as [row' [Hin' [Hbad' Hm]]]; [eauto|].
      exists row'. split; [right; assumption|]. split; [assumption|].
      destruct (subscript_known _ _ Hk) as [c Hc].
      simpl. unfold objective_term at 1. rewrite Hc. simpl. rewrite Hm. reflexivity.
    + exists row. split; [left; reflexivity|]. split; [assumption|].
      simpl. unfold objective_term at 1. rewrite (subscript_unknown _ _ Hk). reflexivity.
Qed.

Lemma mapM_inl {A B} (f : A -> result B) (l : list A) (e : exn) :
  mapM f l = inl e -> exists a, In a l /\ f a = inl e.
Proof.
  induction l as [|a l IH]; simpl.
  - discriminate.
  - destruct (f a) as [e'|b] eqn:Ea; simpl.
    + intros H. inversion H. subst. eauto.
    + destruct (mapM f l) as [e'|bs]; simpl; [|discriminate].
      intros H. inversion H. subst.
      destruct IH as [a' [Hin Ha']]; eauto.
Qed.

Lemma grouped_data_modes (data : list Shipment) (m : string) :
  In m (map (fun row : Cell => snd (fst row)) (grouped_data data))
  <-> In m (map snd (observed_keys data)).
Proof.
  replace (map (fun row : Cell => snd (fst row)) (grouped_data data))
    with (map snd (map fst (grouped_data data)))
    by (rewrite map_map; reflexivity).
  rewrite !in_map_iff.
  split; intros [k [Hm Hk]]; exists k; (split; [exact Hm|]);
    apply grouped_data_keys; exact Hk.
Qed.

Lemma key_modes_known (data : list Shipment) :
  (forall r k, In r data -> key_of r = Some k -> In (snd k) (dict_keys cost_per_kg)) ->
  forall k, In k (map fst (grouped_data data)) -> In (snd k) (dict_keys cost_per_kg).
Proof.
  intros H k Hk. apply grouped_data_keys in Hk.
  apply In_observed_keys in Hk. destruct Hk as [r [Hr Hkey]].
  exact (H r k Hr Hkey).
Qed.

Lemma group_step_unkeyed (data : list Shipment) (g : list Cell) :
  fold_left group_step (filter (keyed (fun _ => true)) data) g = fold_left group_step data g.
Proof.
  revert g. induction data as [|r data IH]; intros g; simpl; [reflexivity|].
  assert (Hstep : keyed (fun _ => true) r = false -> group_step g r = g).
  { unfold keyed, group_step. destruct (key_of r); [discriminate|reflexivity]. }
  destruct (keyed (fun _ => true) r) eqn:E; simpl.
  - apply IH.
  - rewrite (Hstep eq_refl). apply IH.
Qed.

(** The rows without a key take no part in the groups. *)
Lemma grouped_data_keyed (data : list Shipment) :
  grouped_data (filter (keyed (fun _ => true)) data) = grouped_data data.
Proof.
  unfold grouped_data, groupby_sum. apply group_step_unkeyed.
Qed.

Lemma Result_Extractor_unknown_head (k : Var) (dv : list Var) (status : LpStatus)
    (varValue : Var -> option Q) :
  ~ In (snd k) (dict_keys cost_per_kg) ->
  Result_Extractor (k :: dv) (Returned status varValue) = inl (KeyError (snd k)).
Proof.
  intros Hk. simpl. unfold collect_results. simpl.
  unfold result_row at 1. rewrite (subscript_unknown _ _ Hk). reflexivity.
Qed.

Lemma Result_Extractor_unknown (dv : list Var) (status : LpStatus)
    (varValue : Var -> option Q) :
  (forall k, In k dv -> varValue k <> None) ->
  (exists k, In k dv /\ ~ In (snd k) (dict_keys cost_per_kg)) ->
  exists k, In k dv /\ ~ In (snd k) (dict_keys cost_per_kg)
            /\ Result_Extractor dv (Returned status varValue) = inl (KeyError (snd k)).
Proof.
  induction dv as [|k dv IH]; intros Hv [bad [Hin Hbad]]; [destruct Hin|].
  destruct (In_dict_keys_dec cost_per_kg (snd k)) as [Hk|Hk].
  - destruct Hin as [->|Hin]; [contradiction|].
    destruct IH as [k' [Hin' [Hbad' He]]].
    + intros; apply Hv; right; assumption.
    + eauto.
    + exists k'. split; [right; exact Hin'|]. split; [exact Hbad'|].
      destruct (subscript_known _ _ Hk) as [c Hc].
      destruct (varValue k) as [v|] eqn:Ev;
        [|exfalso; exact (Hv k (or_introl eq_refl) Ev)].
      simpl in He |- *. unfold collect_results in He |- *. simpl.
      unfold result_row at 1. rewrite Hc, Ev. simpl. rewrite He. reflexivity.
  - exists k. split; [left; reflexivity|]. split; [exact Hk|].
    apply Result_Extractor_unknown_head. exact Hk.
Qed.

Lemma Result_Extractor_known (dv : list Var) (status : LpStatus)
    (varValue : Var -> option Q) (m : string) :
  (forall k, In k dv -> In (snd k) (dict_keys cost_per_kg)) ->
  Result_Extractor dv (Returned status varValue) <> inl (KeyError m).
Proof.
  intros Hkeys Hp. simpl in Hp.
  apply mapM_inl in Hp. destruct Hp as [k [Hk Hrow]].
  destruct (subscript_known cost_per_kg (snd k) (Hkeys k Hk)) as [c Hc].
  unfold result_row in Hrow. rewrite Hc in Hrow. simpl in Hrow.
  destruct (varValue k); discriminate.
Qed.

(** C10 fails on the code: a row whose mode, Rail, is not in the cost table
    but whose warehouse label is missing is dropped by the grouping, and
    the run goes through with the rows of the others. *)
Lemma dropped_row_with_unknown_mode_is_skipped :
  In (Some "Rail") (map Mode_of_Shipment with_missing_label)
  /\ ~ In "Rail" (dict_keys cost_per_kg)
  /\ pipeline (reports_optimal 30) with_missing_label
     = inr [ {| Warehouse := "A"; Mode := "Road"; Weight := 30; Cost := 30 * 5 |} ].
Proof.
  split; [right; left; reflexivity|]. split; [|reflexivity].
  simpl. intros [H|[H|[H|[]]]]; discriminate.
Qed.

(** C10, as the code behaves. The cost table, whose keys are Flight, Ship
    and Road, is subscripted unguarded when the objective is built and
    when the results are collected. If the records that have both labels
    all have a mode that is a key, every such lookup succeeds: the model is
    built and no run ends in a KeyError. If some record that has both
    labels has a mode that is not a key, the run ends in the KeyError of
    such a mode, raised while the objective is built: no model and no row.
    The extractor raises the KeyError of a variable whose mode is not a
    key, before it multiplies, and raises none when all modes are keys. A
    record with a missing label is in no group, whatever its mode, and
    causes no lookup. *)
Theorem cost_lookup_unguarded (solve : LpProblem -> SolveOutcome) (data : list Shipment) :
  dict_keys cost_per_kg = ["Flight"; "Ship"; "Road"]
  /\
  ((forall r k, In r data -> key_of r = Some k -> In (snd k) (dict_keys cost_per_kg)) ->
   (forall k, In k (map fst (grouped_data data)) ->
              exists c, subscript cost_per_kg (snd k) = inr c)
   /\ (exists problem, Model_Builder data = inr problem)
   /\ (forall m, pipeline solve data <> inl (KeyError m)))
  /\
  ((exists r k, In r data /\ key_of r = Some k
                /\ ~ In (snd k) (dict_keys cost_per_kg)) ->
   exists m, In m (map snd (observed_keys data))
             /\ ~ In m (dict_keys cost_per_kg)
             /\ Model_Builder data = inl (KeyError m)
             /\ pipeline solve data = inl (KeyError m))
  /\
  (forall k dv status varValue,
     ~ In (snd k) (dict_keys cost_per_kg) ->
     Result_Extractor (k :: dv) (Returned status varValue) = inl (KeyError (snd k)))
  /\
  (forall dv status varValue,
     (forall k, In k dv -> varValue k <> None) ->
     (exists k, In k dv /\ ~ In (snd k) (dict_keys cost_per_kg)) ->
     exists k, In k dv /\ ~ In (snd k) (dict_keys cost_per_kg)
               /\ Result_Extractor dv (Returned status varValue)
                  = inl (KeyError (snd k)))
  /\
  (forall dv status varValue m,
     (forall k, In k dv -> In (snd k) (dict_keys cost_per_kg)) ->
     Result_Extractor dv (Returned status varValue) <> inl (KeyError m))
  /\
  grouped_data (filter (keyed (fun _ => true)) data) = grouped_data data.
Proof.
  split; [reflexivity|]. split; [|split; [|split; [|split; [|split]]]].
  - intros Hknown. pose proof (key_modes_known data Hknown) as Hkeys.
    assert (Hb : exists problem, Model_Builder data = inr problem).
    { destruct (build_objective_known (grouped_data data)) as [terms Ht].
      - intros row Hrow. apply Hkeys. apply in_map. exact Hrow.
      - unfold Model_Builder, build_objective. rewrite Ht. simpl. eauto. }
    split; [|split].
    + intros k Hk. apply subscript_known. apply Hkeys. exact Hk.
    + exact Hb.
    + intros m Hp. destruct Hb as [problem Hb].
      unfold pipeline in Hp. rewrite Hb in Hp. simpl in Hp.
      apply Model_Builder_inr in Hb. destruct Hb as [Hv _].
      destruct (solve problem) as [status varValue|] eqn:Hs; [|discriminate].
      revert Hp. apply Result_Extractor_known.
      intros k Hk. apply Hkeys. rewrite <- Hv. exact Hk.
  - intros [r [k [Hr [Hkey Hbad]]]].
    destruct (build_objective_unknown (grouped_data data)) as [row [Hin [Hbad' Hm]]].
    { assert (Hk : In k (map fst (grouped_data data))).
      { apply grouped_data_keys. apply In_observed_keys. eauto. }
      apply in_map_iff in Hk. destruct Hk as [row [Hrow Hin]].
      exists row. split; [exact Hin|]. rewrite Hrow. exact Hbad. }
    exists (snd (fst row)).
    assert (Hmb : Model_Builder data = inl (KeyError (snd (fst row)))).
    { unfold Model_Builder, build_objective. rewrite Hm. reflexivity. }
    split; [|split; [exact Hbad'|split; [exact Hmb|]]].
    + apply grouped_data_modes.
      apply (in_map (fun row : Cell => snd (fst row))). exact Hin.
    + unfold pipeline. rewrite Hmb. reflexivity.
  - intros k dv status varValue. apply Result_Extractor_unknown_head.
  - intros dv status varValue. apply Result_Extractor_unknown.
  - intros dv status varValue m Hk. apply Result_Extractor_known. exact Hk.
  - apply grouped_data_keyed.
Qed.

Lemma cost_lookup_unguarded_witness :
  (forall r k, In r scenario_B -> key_of r = Some k ->
               In (snd k) (dict_keys cost_per_kg))
  /\ (exists problem, Model_Builder scenario_B = inr problem)
  /\ (exists r k, In r with_unknown_mode /\ key_of r = Some k
                  /\ ~ In (snd k) (dict_keys cost_per_kg))
  /\ pipeline (reports_optimal 30) with_unknown_mode = inl (KeyError "Rail").
Proof.
  assert (Hknown : forall r k, In r scenario_B -> key_of r = Some k ->
                               In (snd k) (dict_keys cost_per_kg)).
  { intros r k [<-|[<-|[<-|[]]]] Hk; inversion Hk; simpl; auto. }
  assert (Hbad : exists r k, In r with_unknown_mode /\ key_of r = Some k
                             /\ ~ In (snd k) (dict_keys cost_per_kg)).
  { exists {| Warehouse_block := Some "B"; Mode_of_Shipment := Some "Rail";
              Weight_in_gms := 5000 |}, ("B", "Rail").
    split; [simpl; auto|]. split; [reflexivity|].
    simpl. intros [H|[H|[H|[]]]]; discriminate. }
  destruct (cost_lookup_unguarded (reports_optimal 30) scenario_B) as [_ [Hok _]].
  destruct (cost_lookup_unguarded (reports_optimal 30) with_unknown_mode)
    as [_ [_ [Hko _]]].
  destruct (Hok Hknown) as [_ [Hbuilt _]].
  destruct (Hko Hbad) as [m [_ [_ [_ Hp]]]].
  split; [exact Hknown|]. split; [exact Hbuilt|]. split; [exact Hbad|].
  assert (Hm : "Rail" = m).
  { pose proof Hp as Hp'. vm_compute in Hp'. congruence. }
  rewrite Hm. exact Hp.
Defined.

(** * Further properties of the script *)

(** ** The groups of the aggregation *)

Lemma key_eqb_refl (k : Key) : key_eqb k k = true.
Proof. apply key_eqb_eq. reflexivity. Qed.

Lemma add_to_group_cell (k0 : Key) (w : Q) (g : list Cell) (k : Key) :
  sum (map snd (filter (fun c : Cell => key_eqb (fst c) k) (add_to_group k0 w g)))
  == sum (map snd (filter (fun c : Cell => key_eqb (fst c) k) g))
     + (if key_eqb k0 k then w else 0).
Proof.
  induction g as [|[k' s] g IH]; simpl.
  - destruct (key_eqb k0 k); simpl; rewrite ?sum_cons, ?sum_nil; lra.
  - destruct (key_compare k0 k') eqn:E; simpl.
    + apply key_compare_eq in E. subst k'.
      destruct (key_eqb k0 k); simpl; rewrite ?sum_cons; lra.
    + destruct (key_eqb k0 k), (key_eqb k' k); simpl;
        rewrite ?sum_cons; simpl; rewrite ?sum_cons; lra.
    + destruct (key_eqb k' k); simpl; rewrite ?sum_cons, IH; lra.
Qed.

Lemma groupby_fold_cell (data : list Shipment) (g : list Cell) (k : Key) :
  sum (map snd (filter (fun c : Cell => key_eqb (fst c) k)
                  (fold_left group_step data g)))
  == sum (map snd (filter (fun c : Cell => key_eqb (fst c) k) g))
     + sum (map Weight_in_kg (filter (keyed (fun k' => key_eqb k' k)) data)).
Proof.
  revert g. induction data as [|r data IH]; intros g; simpl.
  - rewrite sum_nil. lra.
  - rewrite IH. unfold group_step, keyed.
    destruct (key_of r) as [k0|]; [|lra].
    rewrite add_to_group_cell.
    destruct (key_eqb k0 k); simpl; rewrite ?sum_cons; lra.
Qed.

Lemma NoDup_cell_weight (g : list Cell) (k : Key) (s : Q) :
  NoDup (map fst g) -> In (k, s) g ->
  sum (map snd (filter (fun c : Cell => key_eqb (fst c) k) g)) == s.
Proof.
  induction g as [|[k' s'] g IH]; simpl; intros Hnd Hin.
  - destruct Hin.
  - inversion Hnd as [|? ? Hn Hnd']. subst.
    destruct Hin as [Heq|Hin].
    + inversion Heq. subst. rewrite key_eqb_refl. simpl. rewrite sum_cons. simpl.
      assert (Hnone : filter (fun c : Cell => key_eqb (fst c) k) g = []).
      { clear - Hn. induction g as [|[k2 s2] g IHg]; simpl; [reflexivity|].
        simpl in Hn. destruct (key_eqb k2 k) eqn:E.
        - apply key_eqb_eq in E. subst. exfalso. auto.
        - apply IHg. auto. }
      rewrite Hnone. simpl. rewrite sum_nil. lra.
    + destruct (key_eqb k' k) eqn:E.
      * apply key_eqb_eq in E. subst. exfalso. apply Hn.
        apply (in_map fst) in Hin. exact Hin.
      * apply IH; assumption.
Qed.

(** X1. Each group carries the total weight of the records that have its
    (warehouse, mode) pair as their two labels. *)
Theorem group_weight_is_its_records_weight (data : list Shipment) (k : Key) (s : Q) :
  In (k, s) (grouped_data data) ->
  s == sum (map Weight_in_kg (filter (keyed (fun k' => key_eqb k' k)) data)).
Proof.
  intros Hin.
  rewrite <- (NoDup_cell_weight (grouped_data data) k s (grouped_data_NoDup data) Hin).
  unfold grouped_data, groupby_sum. rewrite groupby_fold_cell. simpl.
  rewrite sum_nil. lra.
Qed.

Lemma group_weight_is_its_records_weight_witness :
  In (("A", "Road"), 30000 / 1000) (grouped_data scenario_B)
  /\ 30000 / 1000
     == sum (map Weight_in_kg
               (filter (keyed (fun k' => key_eqb k' ("A", "Road"))) scenario_B)).
Proof.
  assert (Hin : In (("A", "Road"), 30000 / 1000) (grouped_data scenario_B)).
  { right. left. reflexivity. }
  split.
  - right. left. reflexivity.
  - rewrite <- (group_weight_is_its_records_weight scenario_B ("A", "Road") _ Hin).
    reflexivity.
Defined.

Lemma key_lt_lex (a b : Key) :
  key_lt a b <->
  String_as_OT.lt (fst a) (fst b) \/ (fst a = fst b /\ String_as_OT.lt (snd a) (snd b)).
Proof.
  destruct a as [a1 a2], b as [b1 b2]. unfold key_lt, key_compare. simpl.
  destruct (String.compare a1 b1) eqn:E.
  - apply String_as_OT.cmp_eq in E. subst. rewrite String_as_OT.cmp_lt. split.
    + auto.
    + intros [H|[_ H]]; [|exact H].
      exfalso. exact (String_as_OT.lt_not_eq _ _ H eq_refl).
  - apply String_as_OT.cmp_lt in E. split; auto.
  - split; [discriminate|]. intros [H|[H _]].
    + apply String_as_OT.cmp_lt in H. unfold String_as_OT.cmp in H. congruence.
    + subst. assert (H : String.compare b1 b1 = Eq) by (apply String_as_OT.cmp_eq; reflexivity).
      congruence.
Qed.

(** X2. The groups come in strictly ascending order of (warehouse, mode), the
    warehouse compared first, so no pair has two groups; and the pairs
    that have a group are exactly the pairs of the records that have both
    labels. *)
Theorem groups_sorted_and_exact (data : list Shipment) :
  StronglySorted
    (fun a b : Key =>
       String_as_OT.lt (fst a) (fst b)
       \/ (fst a = fst b /\ String_as_OT.lt (snd a) (snd b)))
    (map fst (grouped_data data))
  /\ NoDup (map fst (grouped_data data))
  /\ forall k, In k (map fst (grouped_data data))
               <-> exists r, In r data /\ key_of r = Some k.
Proof.
  split; [|split].
  - pose proof (grouped_data_sorted data) as Hs.
    induction Hs as [|a l Hs IH Hall]; constructor; auto.
    rewrite Forall_forall in *. intros x Hx. apply key_lt_lex. auto.
  - apply grouped_data_NoDup.
  - intros k. rewrite grouped_data_keys. apply In_observed_keys.
Qed.

Lemma sorted_same_members (l1 l2 : list Key) :
  StronglySorted key_lt l1 -> StronglySorted key_lt l2 ->
  (forall x, In x l1 <-> In x l2) -> l1 = l2.
Proof.
  intros H1. revert l2. induction H1 as [|a l1 Hs1 IH Hall1]; intros l2 H2 Hmem.
  - destruct l2 as [|b l2]; [reflexivity|].
    exfalso. apply (Hmem b). left. reflexivity.
  - destruct H2 as [|b l2 Hs2 Hall2].
    + exfalso. apply (Hmem a). left. reflexivity.
    + rewrite Forall_forall in Hall1, Hall2.
      assert (Hab : a = b).
      { destruct (proj1 (Hmem a) (or_introl eq_refl)) as [Hba|Ha]; [auto|].
        destruct (proj2 (Hmem b) (or_introl eq_refl)) as [Hab|Hb]; [auto|].
        exfalso. apply (key_lt_irrefl a).
        eapply key_lt_trans; [apply Hall1; exact Hb|apply Hall2; exact Ha]. }
      subst b. f_equal. apply IH; [exact Hs2|].
      intros x. split; intros Hx.
      * destruct (proj1 (Hmem x) (or_intror Hx)) as [Hax|Hx2]; [|exact Hx2].
        subst x. exfalso. exact (key_lt_irrefl a (Hall1 a Hx)).
      * destruct (proj2 (Hmem x) (or_intror Hx)) as [Hax|Hx1]; [|exact Hx1].
        subst x. exfalso. exact (key_lt_irrefl a (Hall2 a Hx)).
Qed.

Lemma records_weight_Permutation (p : Shipment -> bool) (data data' : list Shipment) :
  Permutation data data' ->
  sum (map Weight_in_kg (filter p data)) == sum (map Weight_in_kg (filter p data')).
Proof.
  induction 1 as [|r l l' HP IH|r1 r2 l|l l' l'' HP1 IH1 HP2 IH2]; simpl.
  - reflexivity.
  - destruct (p r); simpl; rewrite ?sum_cons, IH; reflexivity.
  - destruct (p r1), (p r2); simpl; rewrite ?sum_cons; simpl; rewrite ?sum_cons; lra.
  - rewrite IH1. exact IH2.
Qed.

Lemma sum_map_Permutation {A} (f : A -> Q) (l l' : list A) :
  Permutation l l' -> sum (map f l) == sum (map f l').
Proof.
  induction 1 as [|r l l' HP IH|r1 r2 l|l l' l'' HP1 IH1 HP2 IH2]; simpl.
  - reflexivity.
  - rewrite !sum_cons, IH. reflexivity.
  - rewrite !sum_cons. lra.
  - rewrite IH1. exact IH2.
Qed.

Lemma same_keys_same_weights (g g' : list Cell) :
  map fst g = map fst g' ->
  (forall k s s', In (k, s) g -> In (k, s') g' -> s == s') ->
  Forall2 (fun c c' : Cell => fst c = fst c' /\ snd c == snd c') g g'.
Proof.
  revert g'. induction g as [|[k s] g IH]; intros [|[k' s'] g'] Hk Hw;
    simpl in Hk; try discriminate.
  - constructor.
  - inversion Hk. subst k'. constructor.
    + simpl. split; [reflexivity|].
      apply (Hw k); left; reflexivity.
    + apply IH; [assumption|].
      intros k0 s0 s0' H0 H0'. apply (Hw k0); right; assumption.
Qed.

(** X3. The aggregation does not depend on the order of the records: a
    reordered input gives the same groups in the same order, with equal
    weights. *)
Theorem aggregation_order_independent (data data' : list Shipment) :
  Permutation data data' ->
  map fst (grouped_data data) = map fst (grouped_data data')
  /\ Forall2 (fun c c' : Cell => fst c = fst c' /\ snd c == snd c')
             (grouped_data data) (grouped_data data')
  /\ total_actual_weight data == total_actual_weight data'.
Proof.
  intros HP.
  assert (Hkeys : map fst (grouped_data data) = map fst (grouped_data data')).
  { apply sorted_same_members; try apply grouped_data_sorted.
    intros x. rewrite !grouped_data_keys, !In_observed_keys.
    split; intros [r [Hr Hk]]; exists r; (split; [|exact Hk]).
    - eapply Permutation_in; eassumption.
    - eapply Permutation_in; [apply Permutation_sym; exact HP|exact Hr]. }
  split; [exact Hkeys|]. split.
  - apply same_keys_same_weights; [exact Hkeys|].
    assert (Hcell : forall d k s,
               In (k, s) (grouped_data d) ->
               s == sum (map Weight_in_kg (filter (keyed (fun k' => key_eqb k' k)) d))).
    { intros d k s Hin.
      rewrite <- (NoDup_cell_weight (grouped_data d) k s (grouped_data_NoDup d) Hin).
      unfold grouped_data, groupby_sum. rewrite groupby_fold_cell. simpl.
      rewrite sum_nil. lra. }
    intros k s s' Hs Hs'.
    rewrite (Hcell data k s Hs), (Hcell data' k s' Hs').
    apply records_weight_Permutation. exact HP.
  - unfold total_actual_weight. apply sum_map_Permutation. exact HP.
Qed.

Lemma aggregation_order_independent_witness :
  Permutation scenario_B (rev scenario_B)
  /\ map fst (grouped_data scenario_B) = map fst (grouped_data (rev scenario_B)).
Proof.
  assert (HP : Permutation scenario_B (rev scenario_B)) by apply Permutation_rev.
  split; [exact HP|].
  apply (aggregation_order_independent scenario_B (rev scenario_B) HP).
Defined.

(** ** What the constraints admit *)

Lemma holds_total_weight_constraint (dv : list Var) (T : Q) (sigma : Var -> Q) :
  NoDup dv ->
  holds sigma (total_weight_constraint dv T) <-> sum (map sigma dv) == T.
Proof.
  intros Hnd. unfold holds. simpl.
  rewrite lpSum_NoDup by (rewrite map_fst_unit_terms; exact Hnd).
  rewrite eval_unit_terms. tauto.
Qed.

Lemma grouped_data_warehouses (data : list Shipment) (w : string) :
  In w (map (fun row : Cell => fst (fst row)) (grouped_data data))
  <-> In w (map fst (observed_keys data)).
Proof.
  replace (map (fun row : Cell => fst (fst row)) (grouped_data data))
    with (map fst (map fst (grouped_data data)))
    by (rewrite map_map; reflexivity).
  rewrite !in_map_iff.
  split; intros [k [Hw Hk]]; exists k; (split; [exact Hw|]);
    apply grouped_data_keys; exact Hk.
Qed.

(** X4. An assignment is feasible for the model exactly when every variable
    is non-negative, the variables add up to the total weight, every mode
    of the cost table gets between 0.2 and 0.5 of the total, and every
    warehouse of the records that have both labels gets at most 1.1 times
    the weight of those of its records: the model has no other
    restriction. *)
Theorem feasible_iff_bounds (data : list Shipment) (problem : LpProblem)
    (sigma : Var -> Q) :
  Model_Builder data = inr problem ->
  (feasible problem sigma <->
   (forall v, In v (variables problem) -> 0 <= sigma v)
   /\ sum (map sigma (variables problem)) == total_actual_weight data
   /\ (forall mode, In mode (dict_keys cost_per_kg) ->
         0.2 * total_actual_weight data
         <= sum (map sigma (filter (has_mode mode) (variables problem)))
         /\ sum (map sigma (filter (has_mode mode) (variables problem)))
            <= 0.5 * total_actual_weight data)
   /\ (forall w, In w (map fst (observed_keys data)) ->
         sum (map sigma (filter (has_warehouse w) (variables problem)))
         <= 1.1 * sum (map Weight_in_kg
                         (filter (keyed (has_warehouse w)) data)))).
Proof.
  intros H. pose proof (variables_NoDup _ _ H) as Hnd.
  apply Model_Builder_inr in H. destruct H as [Hv Hc].
  unfold feasible. rewrite Hc, <- Hv. unfold build_constraints.
  rewrite !Forall_app, !Forall_map, !Forall_forall.
  split.
  - intros [Hlow [Hsum [Hmin [Hmax Hcap]]]].
    split; [exact Hlow|]. split; [|split].
    + apply (holds_total_weight_constraint _ _ _ Hnd). apply Hsum. left. reflexivity.
    + intros mode Hmode. split.
      * apply (holds_min_allocation _ _ _ _ Hnd). apply Hmin. exact Hmode.
      * apply (holds_max_allocation _ _ _ _ Hnd). apply Hmax. exact Hmode.
    + intros w Hw. rewrite <- warehouse_weight_historical.
      apply (holds_warehouse_capacity _ _ _ _ Hnd). apply Hcap.
      apply unique_In. apply grouped_data_warehouses. exact Hw.
  - intros [Hlow [Hsum [Hmode Hcap]]].
    split; [exact Hlow|]. split; [|split; [|split]].
    + intros c [<-|[]]. apply (holds_total_weight_constraint _ _ _ Hnd). exact Hsum.
    + intros mode Hm. apply (holds_min_allocation _ _ _ _ Hnd). apply Hmode. exact Hm.
    + intros mode Hm. apply (holds_max_allocation _ _ _ _ Hnd). apply Hmode. exact Hm.
    + intros w Hw. apply (holds_warehouse_capacity _ _ _ _ Hnd).
      rewrite warehouse_weight_historical. apply Hcap.
      apply grouped_data_warehouses. apply unique_In. exact Hw.
Qed.

Lemma plan_B_feasible : feasible scenario_B_problem plan_B.
Proof.
  unfold feasible, scenario_B_problem. simpl. split.
  - repeat constructor; vm_compute; discriminate.
  - repeat constructor; unfold holds; simpl; vm_compute; congruence.
Qed.

Lemma feasible_iff_bounds_witness :
  Model_Builder scenario_B = inr scenario_B_problem
  /\ feasible scenario_B_problem plan_B
  /\ sum (map plan_B (variables scenario_B_problem)) == total_actual_weight scenario_B.
Proof.
  assert (Hb : Model_Builder scenario_B = inr scenario_B_problem)
    by (vm_compute; reflexivity).
  split; [exact Hb|]. split; [exact plan_B_feasible|].
  apply (proj1 (feasible_iff_bounds scenario_B scenario_B_problem plan_B Hb)).
  exact plan_B_feasible.
Defined.

Lemma no_variable_of_absent_mode (data : list Shipment) (mode : string) :
  ~ In mode (map snd (observed_keys data)) ->
  filter (has_mode mode) (map fst (grouped_data data)) = [].
Proof.
  intros Habs.
  assert (H : forall k, In k (map fst (grouped_data data)) -> has_mode mode k = false).
  { intros k Hk. apply grouped_data_keys in Hk. unfold has_mode.
    destruct (String.eqb (snd k) mode) eqn:E; [|reflexivity].
    apply String.eqb_eq in E. exfalso. apply Habs. rewrite <- E.
    apply in_map. exact Hk. }
  induction (map fst (grouped_data data)) as [|k l IH]; simpl; [reflexivity|].
  rewrite (H k) by (left; reflexivity).
  apply IH. intros k' Hk'. apply H. right. exact Hk'.
Qed.

(** X5. When the total weight is positive and some mode of the cost table has
    no record with both labels, the model has no feasible assignment: that
    mode's minimum allocation has no variable to meet it. *)
Theorem absent_mode_makes_model_infeasible (data : list Shipment) (problem : LpProblem)
    (mode : string) (sigma : Var -> Q) :
  Model_Builder data = inr problem ->
  In mode (dict_keys cost_per_kg) ->
  ~ In mode (map snd (observed_keys data)) ->
  0 < total_actual_weight data ->
  ~ feasible problem sigma.
Proof.
  intros H Hmode Habs HT [_ Hc].
  pose proof (variables_NoDup _ _ H) as Hnd.
  apply Model_Builder_inr in H. destruct H as [Hv Hcs].
  rewrite Hcs, <- Hv in Hc. unfold build_constraints in Hc.
  rewrite !Forall_app, !Forall_map, !Forall_forall in Hc.
  destruct Hc as [_ [Hmin _]].
  specialize (Hmin mode Hmode).
  apply (holds_min_allocation _ _ _ _ Hnd) in Hmin.
  rewrite Hv, (no_variable_of_absent_mode data mode Habs) in Hmin.
  simpl in Hmin. rewrite sum_nil in Hmin. lra.
Qed.

Lemma absent_mode_makes_model_infeasible_witness :
  Model_Builder scenario_A = inr scenario_A_problem
  /\ In "Ship" (dict_keys cost_per_kg)
  /\ ~ In "Ship" (map snd (observed_keys scenario_A))
  /\ 0 < total_actual_weight scenario_A
  /\ ~ feasible scenario_A_problem (fun _ => 100).
Proof.
  assert (Hb : Model_Builder scenario_A = inr scenario_A_problem)
    by (vm_compute; reflexivity).
  assert (Hm : In "Ship" (dict_keys cost_per_kg)) by (simpl; auto).
  assert (Ha : ~ In "Ship" (map snd (observed_keys scenario_A))).
  { vm_compute. intros [H|[]]. discriminate. }
  assert (HT : 0 < total_actual_weight scenario_A) by reflexivity.
  split; [exact Hb|]. split; [exact Hm|]. split; [exact Ha|]. split; [exact HT|].
  exact (absent_mode_makes_model_infeasible scenario_A scenario_A_problem "Ship"
           (fun _ => 100) Hb Hm Ha HT).
Defined.

(** ** The cost of a feasible plan *)

Lemma known_mode_cases (m : string) (c : Q) :
  dict_get cost_per_kg m = Some c ->
  (m = "Flight" /\ c = 20) \/ (m = "Ship" /\ c = 10) \/ (m = "Road" /\ c = 5).
Proof.
  unfold cost_per_kg. cbn -[String.eqb].
  destruct (String.eqb_spec "Flight" m) as [<-|_].
  { intros H. inversion H. auto. }
  destruct (String.eqb_spec "Ship" m) as [<-|_].
  { intros H. inversion H. auto. }
  destruct (String.eqb_spec "Road" m) as [<-|_].
  { intros H. inversion H. auto. }
  intros H. simpl in H. discriminate.
Qed.

Lemma sum_filter_cons (sigma : Var -> Q) (p : Key -> bool) (k : Key) (l : list Key) :
  sum (map sigma (filter p (k :: l)))
  == (if p k then sigma k else 0) + sum (map sigma (filter p l)).
Proof.
  simpl. destruct (p k); simpl; rewrite ?sum_cons; lra.
Qed.

(** The objective splits by mode, and so does the sum of the variables. *)
Lemma objective_by_mode (sigma : Var -> Q) (terms : list (Var * Q)) :
  Forall (fun t => dict_get cost_per_kg (snd (fst t)) = Some (snd t)) terms ->
  eval terms sigma
  == 20 * sum (map sigma (filter (has_mode "Flight") (map fst terms)))
     + 10 * sum (map sigma (filter (has_mode "Ship") (map fst terms)))
     + 5 * sum (map sigma (filter (has_mode "Road") (map fst terms)))
  /\ sum (map sigma (map fst terms))
     == sum (map sigma (filter (has_mode "Flight") (map fst terms)))
        + sum (map sigma (filter (has_mode "Ship") (map fst terms)))
        + sum (map sigma (filter (has_mode "Road") (map fst terms))).
Proof.
  unfold eval.
  induction 1 as [|[[w m] c] terms Hc Hall [IHe IHs]].
  - simpl. rewrite !sum_nil. split; lra.
  - rewrite !map_cons, !sum_filter_cons, !sum_cons, IHe, IHs.
    simpl fst. simpl snd. simpl in Hc.
    destruct (known_mode_cases m c Hc) as [[-> ->]|[[-> ->]|[-> ->]]];
      repeat match goal with
             | |- context [has_mode ?a (?x, ?b)] =>
                 let v := eval vm_compute in (String.eqb b a) in
                 change (has_mode a (x, b)) with v
             end;
      cbv iota; unfold Var, Key in *; split; lra.
Qed.

Lemma objective_terms_priced (grouped : list Cell) :
  forall terms,
    mapM objective_term grouped = inr terms ->
    Forall (fun t => dict_get cost_per_kg (snd (fst t)) = Some (snd t)) terms.
Proof.
  induction grouped as [|row grouped IH]; intros terms Ht.
  - simpl in Ht. inversion Ht. constructor.
  - apply mapM_inr_cons in Ht. destruct Ht as [t [terms' [Hft [Ht' ->]]]].
    apply objective_term_inr in Hft. destruct Hft as [Hk Hc].
    constructor; [|apply IH; exact Ht'].
    rewrite <- Hk in Hc. exact Hc.
Qed.

(** X6. For every feasible assignment of a model that was built, the
    objective lies between 9.5 times and 14 times the total weight. *)
Theorem feasible_cost_band (data : list Shipment) (problem : LpProblem)
    (sigma : Var -> Q) :
  Model_Builder data = inr problem ->
  feasible problem sigma ->
  9.5 * total_actual_weight data <= eval (objective problem) sigma
  /\ eval (objective problem) sigma <= 14 * total_actual_weight data.
Proof.
  intros H Hf. pose proof (variables_NoDup _ _ H) as Hnd.
  pose proof (Model_Builder_objective _ _ H) as Hobj.
  pose proof (objective_terms_priced _ _ Hobj) as Hpriced.
  pose proof (mapM_objective_keys _ _ Hobj) as Hkeys.
  apply Model_Builder_inr in H. destruct H as [Hv Hc].
  destruct (objective_by_mode sigma _ Hpriced) as [He Hs].
  rewrite Hkeys, <- Hv in He, Hs.
  destruct Hf as [_ Hf]. rewrite Hc, <- Hv in Hf. unfold build_constraints in Hf.
  rewrite !Forall_app, !Forall_map, !Forall_forall in Hf.
  destruct Hf as [Hsum [Hmin [Hmax _]]].
  assert (Htot : sum (map sigma (variables problem)) == total_actual_weight data).
  { apply (holds_total_weight_constraint _ _ _ Hnd). apply Hsum. left. reflexivity. }
  assert (HF : In "Flight" (dict_keys cost_per_kg)) by (simpl; auto).
  assert (HR : In "Road" (dict_keys cost_per_kg)) by (simpl; auto).
  pose proof (proj1 (holds_min_allocation _ _ _ _ Hnd) (Hmin _ HF)) as HFlo.
  pose proof (proj1 (holds_max_allocation _ _ _ _ Hnd) (Hmax _ HF)) as HFhi.
  pose proof (proj1 (holds_min_allocation _ _ _ _ Hnd) (Hmin _ HR)) as HRlo.
  pose proof (proj1 (holds_max_allocation _ _ _ _ Hnd) (Hmax _ HR)) as HRhi.
  rewrite He. rewrite Hs in Htot.
  unfold Var, Key in *. split; lra.
Qed.

Lemma feasible_cost_band_witness :
  Model_Builder scenario_B = inr scenario_B_problem
  /\ feasible scenario_B_problem plan_B
  /\ eval (objective scenario_B_problem) plan_B == 9.5 * total_actual_weight scenario_B
  /\ 9.5 * total_actual_weight scenario_B <= eval (objective scenario_B_problem) plan_B.
Proof.
  assert (Hb : Model_Builder scenario_B = inr scenario_B_problem)
    by (vm_compute; reflexivity).
  split; [exact Hb|]. split; [exact plan_B_feasible|]. split; [reflexivity|].
  apply (feasible_cost_band scenario_B scenario_B_problem plan_B Hb plan_B_feasible).
Defined.

(** ** The result rows of a run *)

Lemma pipeline_inr (solve : LpProblem -> SolveOutcome) (data : list Shipment)
    (rows : list Row) :
  pipeline solve data = inr rows ->
  exists problem status varValue,
    Model_Builder data = inr problem
    /\ solve problem = Returned status varValue
    /\ collect_results (map fst (grouped_data data)) varValue = inr rows.
Proof.
  unfold pipeline. destruct (Model_Builder data) as [e|problem] eqn:Hb; simpl.
  - discriminate.
  - destruct (solve problem) as [status varValue|] eqn:Hs; simpl; [|discriminate].
    intros Hr. exists problem, status, varValue.
    apply Model_Builder_inr in Hb as Hv. destruct Hv as [Hv _].
    rewrite Hv in Hr. auto.
Qed.

(** X7. A run that yields rows yields one row per (warehouse, mode) pair of the
    records that have both labels and no other, in ascending order of the
    pairs. *)
Theorem one_row_per_observed_pair (solve : LpProblem -> SolveOutcome)
    (data : list Shipment) (rows : list Row) :
  pipeline solve data = inr rows ->
  map (fun r => (Warehouse r, Mode r)) rows = map fst (grouped_data data)
  /\ StronglySorted key_lt (map (fun r => (Warehouse r, Mode r)) rows)
  /\ (forall w m, (exists r, In r rows /\ Warehouse r = w /\ Mode r = m)
                  <-> (exists s, In s data /\ Warehouse_block s = Some w
                                 /\ Mode_of_Shipment s = Some m)).
Proof.
  intros Hp. apply pipeline_inr in Hp.
  destruct Hp as [problem [status [varValue [_ [_ Hr]]]]].
  apply collect_results_rows in Hr. destruct Hr as [_ Hkeys].
  split; [exact Hkeys|]. split.
  - rewrite Hkeys. apply grouped_data_sorted.
  - intros w m.
    assert (Hiff : In (w, m) (map (fun r => (Warehouse r, Mode r)) rows)
                   <-> In (w, m) (observed_keys data)).
    { rewrite Hkeys. apply grouped_data_keys. }
    rewrite in_map_iff, In_observed_keys in Hiff. split.
    + intros [r [Hin [Hw Hm]]].
      destruct (proj1 Hiff) as [s [Hin' Hs]].
      { exists r. split; [congruence|exact Hin]. }
      exists s. split; [exact Hin'|].
      unfold key_of in Hs.
      destruct (Warehouse_block s), (Mode_of_Shipment s); inversion Hs. auto.
    + intros [s [Hin [Hw Hm]]].
      destruct (proj2 Hiff) as [r [Hr Hin']].
      { exists s. split; [exact Hin|]. unfold key_of. rewrite Hw, Hm. reflexivity. }
      exists r. inversion Hr. auto.
Qed.

Lemma one_row_per_observed_pair_witness :
  pipeline (reports_optimal 30) scenario_B
  = inr [ {| Warehouse := "A"; Mode := "Flight"; Weight := 30; Cost := 30 * 20 |};
          {| Warehouse := "A"; Mode := "Road"; Weight := 30; Cost := 30 * 5 |};
          {| Warehouse := "A"; Mode := "Ship"; Weight := 30; Cost := 30 * 10 |} ]
  /\ [("A", "Flight"); ("A", "Road"); ("A", "Ship")] = map fst (grouped_data scenario_B).
Proof.
  split; [reflexivity|].
  apply (one_row_per_observed_pair (reports_optimal 30) scenario_B
           [ {| Warehouse := "A"; Mode := "Flight"; Weight := 30; Cost := 30 * 20 |};
             {| Warehouse := "A"; Mode := "Road"; Weight := 30; Cost := 30 * 5 |};
             {| Warehouse := "A"; Mode := "Ship"; Weight := 30; Cost := 30 * 10 |} ]).
  reflexivity.
Defined.

Lemma variables_priced (data : list Shipment) (problem : LpProblem) :
  Model_Builder data = inr problem ->
  forall k, In k (variables problem) -> exists c, dict_get cost_per_kg (snd k) = Some c.
Proof.
  intros H k Hk.
  pose proof (Model_Builder_objective _ _ H) as Hobj.
  pose proof (objective_terms_priced _ _ Hobj) as Hpriced.
  pose proof (mapM_objective_keys _ _ Hobj) as Hkeys.
  apply Model_Builder_inr in H. destruct H as [Hv _].
  rewrite Hv, <- Hkeys in Hk. apply in_map_iff in Hk. destruct Hk as [t [<- Ht]].
  rewrite Forall_forall in Hpriced. eauto.
Qed.

Lemma collect_results_all_valued (varValue : Var -> option Q) (dv : list Var) :
  (forall k, In k dv -> exists c, dict_get cost_per_kg (snd k) = Some c) ->
  (forall k, In k dv -> varValue k <> None) ->
  exists rows, collect_results dv varValue = inr rows.
Proof.
  unfold collect_results.
  induction dv as [|k dv IH]; intros Hp Hv.
  - exists []. reflexivity.
  - destruct (Hp k (or_introl eq_refl)) as [c Hc].
    destruct (varValue k) as [v|] eqn:Ev;
      [|exfalso; exact (Hv k (or_introl eq_refl) Ev)].
    assert (Hp' : forall k', In k' dv -> exists c', dict_get cost_per_kg (snd k') = Some c')
      by (intros; apply Hp; right; assumption).
    assert (Hv' : forall k', In k' dv -> varValue k' <> None)
      by (intros; apply Hv; right; assumption).
    destruct (IH Hp' Hv') as [rows Hrows].
    simpl. unfold result_row at 1, subscript. rewrite Hc, Ev. simpl.
    rewrite Hrows. simpl. eauto.
Qed.

Lemma collect_results_some_None (varValue : Var -> option Q) (dv : list Var) :
  (forall k, In k dv -> exists c, dict_get cost_per_kg (snd k) = Some c) ->
  (exists k, In k dv /\ varValue k = None) ->
  collect_results dv varValue = inl TypeError.
Proof.
  unfold collect_results.
  induction dv as [|k dv IH]; intros Hp [k0 [Hin Hnone]].
  - destruct Hin.
  - destruct (Hp k (or_introl eq_refl)) as [c Hc].
    simpl. unfold result_row at 1, subscript. rewrite Hc. simpl.
    destruct (varValue k) as [v|] eqn:Ev; [|reflexivity].
    simpl. rewrite IH; [reflexivity| |].
    + intros. apply Hp. right. assumption.
    + destruct Hin as [->|Hin]; [congruence|]. eauto.
Qed.

(** X8. Once the model is built and the solver has returned, the run yields
    rows exactly when the solver left a value on every decision variable;
    if some variable has none, the run ends in a TypeError. *)
Theorem rows_iff_every_variable_valued (solve : LpProblem -> SolveOutcome)
    (data : list Shipment) (problem : LpProblem) (status : LpStatus)
    (varValue : Var -> option Q) :
  Model_Builder data = inr problem ->
  solve problem = Returned status varValue ->
  ((exists rows, pipeline solve data = inr rows)
   <-> forall k, In k (variables problem) -> varValue k <> None)
  /\ (pipeline solve data = inl TypeError
      <-> exists k, In k (variables problem) /\ varValue k = None).
Proof.
  intros Hb Hs. pose proof (variables_priced _ _ Hb) as Hp.
  assert (Hrun : pipeline solve data = collect_results (variables problem) varValue).
  { unfold pipeline. rewrite Hb. simpl. rewrite Hs. reflexivity. }
  rewrite Hrun.
  assert (Hdec : (forall k, In k (variables problem) -> varValue k <> None)
                 \/ exists k, In k (variables problem) /\ varValue k = None).
  { clear. induction (variables problem) as [|k l IH].
    - left. intros k [].
    - destruct (varValue k) eqn:Ev.
      + destruct IH as [IH|[k0 [Hin Hn]]].
        * left. intros k0 [<-|Hin]; [congruence|auto].
        * right. exists k0. split; [right|]; assumption.
      + right. exists k. split; [left; reflexivity|exact Ev]. }
  split; split.
  - intros [rows Hr] k Hk Hn.
    rewrite (collect_results_some_None _ _ Hp) in Hr by eauto. discriminate.
  - intros Hv. apply collect_results_all_valued; assumption.
  - intros He. destruct Hdec as [Hv|Hn]; [|exact Hn].
    destruct (collect_results_all_valued _ _ Hp Hv) as [rows Hr]. congruence.
  - intros Hn. apply collect_results_some_None; assumption.
Qed.

Lemma rows_iff_every_variable_valued_witness :
  Model_Builder scenario_B = inr scenario_B_problem
  /\ (fun _ : LpProblem => Returned LpStatusNotSolved (fun _ => None)) scenario_B_problem
     = Returned LpStatusNotSolved (fun _ => None)
  /\ pipeline (fun _ => Returned LpStatusNotSolved (fun _ => None)) scenario_B
     = inl TypeError.
Proof.
  assert (Hb : Model_Builder scenario_B = inr scenario_B_problem)
    by (vm_compute; reflexivity).
  split; [exact Hb|]. split; [reflexivity|].
  apply (rows_iff_every_variable_valued
           (fun _ => Returned LpStatusNotSolved (fun _ => None))
           scenario_B scenario_B_problem LpStatusNotSolved (fun _ => None) Hb eq_refl).
  exists ("A", "Flight"). split; [left; reflexivity|reflexivity].
Defined.

(** ** Grouping on one column *)

Lemma str_lt_irrefl (a : string) : ~ str_lt a a.
Proof.
  unfold str_lt.
  assert (H : String.compare a a = Eq) by (apply String_as_OT.cmp_eq; reflexivity).
  congruence.
Qed.

Lemma str_lt_trans (a b c : string) : str_lt a b -> str_lt b c -> str_lt a c.
Proof.
  unfold str_lt. intros Hab Hbc.
  apply String_as_OT.cmp_lt. apply String_as_OT.cmp_lt in Hab, Hbc.
  eapply String_as_OT.lt_trans; eassumption.
Qed.

Lemma str_compare_gt (a b : string) : String.compare a b = Gt -> str_lt b a.
Proof.
  unfold str_lt. rewrite (String.compare_antisym b a).
  intros ->. reflexivity.
Qed.

Section GroupBy.
Context {V : Type} (plus : V -> V -> V) (f : V -> Q).
Hypothesis f_plus : forall a b, f (plus a b) == f a + f b.

Lemma add_to_group_by_total (k : string) (v : V) (g : list (string * V)) :
  sum (map (fun c => f (snd c)) (add_to_group_by plus k v g))
  == sum (map (fun c => f (snd c)) g) + f v.
Proof.
  induction g as [|[k' s] g IH]; simpl.
  - rewrite sum_cons, sum_nil. simpl. lra.
  - destruct (String.compare k k'); simpl; rewrite !sum_cons; simpl.
    + rewrite f_plus. lra.
    + lra.
    + rewrite IH. lra.
Qed.

Lemma add_to_group_by_cell (k0 : string) (v : V) (g : list (string * V)) (k : string) :
  sum (map (fun c => f (snd c))
         (filter (fun c => String.eqb (fst c) k) (add_to_group_by plus k0 v g)))
  == sum (map (fun c => f (snd c)) (filter (fun c => String.eqb (fst c) k) g))
     + (if String.eqb k0 k then f v else 0).
Proof.
  induction g as [|[k' s] g IH]; simpl.
  - destruct (String.eqb k0 k); simpl; rewrite ?sum_cons, ?sum_nil; simpl; lra.
  - destruct (String.compare k0 k') eqn:E; simpl.
    + apply String_as_OT.cmp_eq in E. subst k'.
      destruct (String.eqb k0 k); simpl; rewrite ?sum_cons; simpl;
        rewrite ?f_plus; lra.
    + destruct (String.eqb k0 k), (String.eqb k' k); simpl;
        rewrite ?sum_cons; simpl; rewrite ?sum_cons; simpl; lra.
    + destruct (String.eqb k' k); simpl; rewrite ?sum_cons, IH; simpl; lra.
Qed.

Lemma add_to_group_by_keys (k : string) (v : V) (g : list (string * V)) (x : string) :
  In x (map fst (add_to_group_by plus k v g)) <-> x = k \/ In x (map fst g).
Proof.
  induction g as [|[k' s] g IH]; simpl.
  - intuition.
  - destruct (String.compare k k') eqn:E; simpl.
    + apply String_as_OT.cmp_eq in E. subst. intuition.
    + intuition.
    + rewrite IH. intuition.
Qed.

Lemma add_to_group_by_sorted (k : string) (v : V) (g : list (string * V)) :
  StronglySorted str_lt (map fst g) ->
  StronglySorted str_lt (map fst (add_to_group_by plus k v g)).
Proof.
  induction g as [|[k' s] g IH]; simpl; intros Hs.
  - constructor; constructor.
  - inversion Hs as [|? ? Hs' Hall]; subst.
    destruct (String.compare k k') eqn:E; simpl.
    + constructor; assumption.
    + constructor; [assumption|].
      constructor; [exact E|].
      rewrite Forall_forall in *. intros x Hx.
      eapply str_lt_trans; [exact E|]. auto.
    + constructor; [auto|].
      rewrite Forall_forall in *. intros x Hx.
      apply add_to_group_by_keys in Hx. destruct Hx as [->|Hx].
      * apply str_compare_gt. exact E.
      * auto.
Qed.

Context {R : Type} (kf : R -> string) (vf : R -> V).

Lemma group_by_fold_total (rows : list R) (g : list (string * V)) :
  sum (map (fun c => f (snd c))
         (fold_left (fun g r => add_to_group_by plus (kf r) (vf r) g) rows g))
  == sum (map (fun c => f (snd c)) g) + sum (map (fun r => f (vf r)) rows).
Proof.
  revert g. induction rows as [|r rows IH]; intros g; simpl.
  - rewrite sum_nil. lra.
  - rewrite IH, add_to_group_by_total, sum_cons. lra.
Qed.

Lemma group_by_fold_cell (rows : list R) (g : list (string * V)) (k : string) :
  sum (map (fun c => f (snd c))
         (filter (fun c => String.eqb (fst c) k)
            (fold_left (fun g r => add_to_group_by plus (kf r) (vf r) g) rows g)))
  == sum (map (fun c => f (snd c)) (filter (fun c => String.eqb (fst c) k) g))
     + sum (map (fun r => f (vf r)) (filter (fun r => String.eqb (kf r) k) rows)).
Proof.
  revert g. induction rows as [|r rows IH]; intros g; simpl.
  - rewrite sum_nil. lra.
  - rewrite IH, add_to_group_by_cell.
    destruct (String.eqb (kf r) k); simpl; rewrite ?sum_cons; lra.
Qed.

Lemma group_by_fold_keys (rows : list R) (g : list (string * V)) (x : string) :
  In x (map fst (fold_left (fun g r => add_to_group_by plus (kf r) (vf r) g) rows g))
  <-> In x (map fst g) \/ In x (map kf rows).
Proof.
  revert g. induction rows as [|r rows IH]; intros g; simpl.
  - intuition.
  - rewrite IH, add_to_group_by_keys. intuition.
Qed.

Lemma group_by_fold_sorted (rows : list R) (g : list (string * V)) :
  StronglySorted str_lt (map fst g) ->
  StronglySorted str_lt
    (map fst (fold_left (fun g r => add_to_group_by plus (kf r) (vf r) g) rows g)).
Proof.
  revert g. induction rows as [|r rows IH]; intros g Hs; simpl.
  - exact Hs.
  - apply IH. apply add_to_group_by_sorted. exact Hs.
Qed.

Lemma group_cell_value (g : list (string * V)) (k : string) (v : V) :
  NoDup (map fst g) -> In (k, v) g ->
  sum (map (fun c => f (snd c)) (filter (fun c => String.eqb (fst c) k) g)) == f v.
Proof.
  induction g as [|[k' v'] g IH]; simpl; intros Hnd Hin.
  - destruct Hin.
  - inversion Hnd as [|? ? Hn Hnd']. subst.
    destruct Hin as [Heq|Hin].
    + inversion Heq. subst. rewrite String.eqb_refl. simpl. rewrite sum_cons. simpl.
      assert (Hnone : filter (fun c : string * V => String.eqb (fst c) k) g = []).
      { clear - Hn. induction g as [|[k2 s2] g IHg]; simpl; [reflexivity|].
        simpl in Hn. destruct (String.eqb k2 k) eqn:E.
        - apply String.eqb_eq in E. subst. exfalso. auto.
        - apply IHg. auto. }
      rewrite Hnone. simpl. rewrite sum_nil. lra.
    + destruct (String.eqb k' k) eqn:E.
      * apply String.eqb_eq in E. subst. exfalso. apply Hn.
        apply (in_map fst) in Hin. exact Hin.
      * apply IH; assumption.
Qed.
End GroupBy.

Lemma str_sorted_NoDup (l : list string) : StronglySorted str_lt l -> NoDup l.
Proof.
  induction 1 as [|a l Hs IH Hall]; constructor; auto.
  intros Hin. rewrite Forall_forall in Hall.
  exact (str_lt_irrefl a (Hall a Hin)).
Qed.

(** ** The mode summary *)

Lemma mode_totals_inr (df : list Row) (totals : list (string * (Q * Q))) :
  mode_totals df = inr totals ->
  df <> []
  /\ totals = fold_left (fun g r => add_to_group_by plus2 (Mode r) (Weight r, Cost r) g)
                        df [].
Proof.
  unfold mode_totals. destruct df as [|r df]; simpl; [discriminate|].
  intros H. inversion H. split; [discriminate|reflexivity].
Qed.

Lemma mode_totals_NoDup (df : list Row) (totals : list (string * (Q * Q))) :
  mode_totals df = inr totals -> NoDup (map fst totals).
Proof.
  intros H. apply mode_totals_inr in H. destruct H as [_ ->].
  apply str_sorted_NoDup, group_by_fold_sorted. constructor.
Qed.

Lemma priced_rows_cost (price : Q) (m : string) (rows : list Row) :
  Forall (fun r => exists c, dict_get cost_per_kg (Mode r) = Some c
                             /\ Cost r = Weight r * c) rows ->
  dict_get cost_per_kg m = Some price ->
  sum (map Cost (filter (fun r => String.eqb (Mode r) m) rows))
  == sum (map Weight (filter (fun r => String.eqb (Mode r) m) rows)) * price.
Proof.
  intros Hall Hprice. induction Hall as [|r rows [c [Hc Hcost]] Hall IH]; simpl.
  - rewrite sum_nil. lra.
  - destruct (String.eqb (Mode r) m) eqn:E; [|exact IH].
    apply String.eqb_eq in E. rewrite E, Hprice in Hc. inversion Hc. subst c.
    simpl. rewrite !sum_cons, IH, Hcost. lra.
Qed.

(** X9. In the mode summary of a run every mode of the result rows has one
    line and no other mode has one; a line's weight is the total weight of
    the rows of its mode, and its cost is that weight times the mode's
    cost per kilogram. *)
Theorem mode_totals_consistent (solve : LpProblem -> SolveOutcome)
    (data : list Shipment) (rows : list Row) (totals : list (string * (Q * Q))) :
  pipeline solve data = inr rows ->
  mode_totals rows = inr totals ->
  NoDup (map fst totals)
  /\ (forall m, In m (map fst totals) <-> In m (map Mode rows))
  /\ forall m w c, In (m, (w, c)) totals ->
       w == sum (map Weight (filter (fun r => String.eqb (Mode r) m) rows))
       /\ exists price, dict_get cost_per_kg m = Some price /\ c == w * price.
Proof.
  intros Hp Ht. pose proof (mode_totals_NoDup _ _ Ht) as Hnd.
  apply pipeline_inr in Hp. destruct Hp as [problem [status [varValue [_ [_ Hr]]]]].
  apply collect_results_rows in Hr. destruct Hr as [Hpriced _].
  apply mode_totals_inr in Ht as Hfold. destruct Hfold as [_ Hfold].
  assert (Hmem : forall m, In m (map fst totals) <-> In m (map Mode rows)).
  { intros m. rewrite Hfold, group_by_fold_keys. simpl. tauto. }
  split; [exact Hnd|]. split; [exact Hmem|].
  intros m w c Hin.
  assert (Hw : w == sum (map Weight (filter (fun r => String.eqb (Mode r) m) rows))).
  { rewrite <- (group_cell_value fst totals m (w, c) Hnd Hin).
    rewrite Hfold.
    rewrite (group_by_fold_cell plus2 fst (fun a b => Qeq_refl _) Mode
               (fun r => (Weight r, Cost r))).
    change (fun r : Row => fst (Weight r, Cost r)) with Weight.
    simpl. rewrite sum_nil. lra. }
  assert (Hc : c == sum (map Cost (filter (fun r => String.eqb (Mode r) m) rows))).
  { rewrite <- (group_cell_value snd totals m (w, c) Hnd Hin).
    rewrite Hfold.
    rewrite (group_by_fold_cell plus2 snd (fun a b => Qeq_refl _) Mode
               (fun r => (Weight r, Cost r))).
    change (fun r : Row => snd (Weight r, Cost r)) with Cost.
    simpl. rewrite sum_nil. lra. }
  split; [exact Hw|].
  assert (Hm : In m (map Mode rows)).
  { apply Hmem. apply (in_map fst) in Hin. exact Hin. }
  apply in_map_iff in Hm. destruct Hm as [r [Hmode Hr]].
  rewrite Forall_forall in Hpriced.
  destruct (Hpriced r Hr) as [price [Hprice _]].
  exists price. rewrite <- Hmode. split; [exact Hprice|].
  rewrite Hc, Hw, <- Hmode.
  apply priced_rows_cost; [|exact Hprice].
  rewrite Forall_forall. intros r' Hr'.
  destruct (Hpriced r' Hr') as [c' [Hc' [_ Hcost']]]. eauto.
Qed.

Lemma mode_totals_consistent_witness :
  pipeline (reports_optimal 30) scenario_B
  = inr [ {| Warehouse := "A"; Mode := "Flight"; Weight := 30; Cost := 30 * 20 |};
          {| Warehouse := "A"; Mode := "Road"; Weight := 30; Cost := 30 * 5 |};
          {| Warehouse := "A"; Mode := "Ship"; Weight := 30; Cost := 30 * 10 |} ]
  /\ mode_totals
       [ {| Warehouse := "A"; Mode := "Flight"; Weight := 30; Cost := 30 * 20 |};
         {| Warehouse := "A"; Mode := "Road"; Weight := 30; Cost := 30 * 5 |};
         {| Warehouse := "A"; Mode := "Ship"; Weight := 30; Cost := 30 * 10 |} ]
     = inr [("Flight", (30, 30 * 20)); ("Road", (30, 30 * 5)); ("Ship", (30, 30 * 10))]
  /\ NoDup ["Flight"; "Road"; "Ship"].
Proof.
  split; [reflexivity|]. split; [reflexivity|].
  apply (mode_totals_consistent (reports_optimal 30) scenario_B
           [ {| Warehouse := "A"; Mode := "Flight"; Weight := 30; Cost := 30 * 20 |};
             {| Warehouse := "A"; Mode := "Road"; Weight := 30; Cost := 30 * 5 |};
             {| Warehouse := "A"; Mode := "Ship"; Weight := 30; Cost := 30 * 10 |} ]
           [("Flight", (30, 30 * 20)); ("Road", (30, 30 * 5)); ("Ship", (30, 30 * 10))]
           eq_refl eq_refl).
Defined.

(** X10. The minimised total cost that is printed, the value of the objective,
    is the sum of the costs of the mode lines printed below it. *)
Theorem printed_cost_is_sum_of_mode_costs (solve : LpProblem -> SolveOutcome)
    (data : list Shipment) (problem : LpProblem) (status : LpStatus)
    (varValue : Var -> option Q) (rows : list Row)
    (totals : list (string * (Q * Q))) :
  Model_Builder data = inr problem ->
  solve problem = Returned status varValue ->
  pipeline solve data = inr rows ->
  mode_totals rows = inr totals ->
  exists obj, value (objective problem) varValue = Some obj
              /\ obj == sum (map (fun t => snd (snd t)) totals)
              /\ sum (map (fun t => fst (snd t)) totals) == sum (map Weight rows).
Proof.
  intros Hb Hs Hp Ht.
  unfold pipeline in Hp. rewrite Hb in Hp. simpl in Hp. rewrite Hs in Hp. simpl in Hp.
  apply Model_Builder_inr in Hb as Hv. destruct Hv as [Hv _]. rewrite Hv in Hp.
  destruct (value_objective_rows varValue (grouped_data data) (objective problem) rows)
    as [obj [Hval Hobj]]; [apply Model_Builder_objective; exact Hb|exact Hp|].
  apply mode_totals_inr in Ht. destruct Ht as [_ ->].
  exists obj. split; [exact Hval|]. split.
  - rewrite Hobj.
    rewrite (group_by_fold_total plus2 snd (fun a b => Qeq_refl _) Mode
               (fun r => (Weight r, Cost r))).
    change (fun r : Row => snd (Weight r, Cost r)) with Cost.
    simpl. rewrite sum_nil. lra.
  - rewrite (group_by_fold_total plus2 fst (fun a b => Qeq_refl _) Mode
               (fun r => (Weight r, Cost r))).
    change (fun r : Row => fst (Weight r, Cost r)) with Weight.
    simpl. rewrite sum_nil. lra.
Qed.

Lemma printed_cost_is_sum_of_mode_costs_witness :
  Model_Builder scenario_B = inr scenario_B_problem
  /\ exists obj, value (objective scenario_B_problem) (fun _ => Some 30) = Some obj
                 /\ obj == 30 * 20 + 30 * 5 + 30 * 10.
Proof.
  assert (Hb : Model_Builder scenario_B = inr scenario_B_problem)
    by (vm_compute; reflexivity).
  split; [exact Hb|].
  destruct (printed_cost_is_sum_of_mode_costs (reports_optimal 30) scenario_B
              scenario_B_problem LpStatusOptimal (fun _ => Some 30)
              [ {| Warehouse := "A"; Mode := "Flight"; Weight := 30; Cost := 30 * 20 |};
                {| Warehouse := "A"; Mode := "Road"; Weight := 30; Cost := 30 * 5 |};
                {| Warehouse := "A"; Mode := "Ship"; Weight := 30; Cost := 30 * 10 |} ]
              [("Flight", (30, 30 * 20)); ("Road", (30, 30 * 5)); ("Ship", (30, 30 * 10))]
              Hb eq_refl eq_refl eq_refl) as [obj [Hv [Ho _]]].
  exists obj. split; [exact Hv|].
  rewrite Ho. unfold sum. simpl. lra.
Defined.

Lemma rows_weight_by_key (varValue : Var -> option Q) (p : Key -> bool) (dv : list Var) :
  forall rows,
    collect_results dv varValue = inr rows ->
    sum (map Weight (filter (fun r => p (Warehouse r, Mode r)) rows))
    == sum (map (assignment_of varValue) (filter p dv)).
Proof.
  unfold collect_results.
  induction dv as [|k dv IH]; intros rows Hr.
  - simpl in Hr. inversion Hr. reflexivity.
  - apply mapM_inr_cons in Hr. destruct Hr as [r [rows' [Hfr [Hr' ->]]]].
    apply result_row_inr in Hfr. destruct Hfr as [c [_ [Hval [Hw [Hm _]]]]].
    assert (Hk : (Warehouse r, Mode r) = k) by (destruct k; simpl in *; congruence).
    simpl. rewrite Hk. destruct (p k); [|apply IH; exact Hr'].
    assert (Ha : assignment_of varValue k = Weight r)
      by (unfold assignment_of; rewrite Hval; reflexivity).
    simpl. rewrite !sum_cons, (IH _ Hr'), Ha. reflexivity.
Qed.

Lemma mode_totals_line (rows : list Row) (totals : list (string * (Q * Q)))
    (m : string) (w c : Q) :
  mode_totals rows = inr totals ->
  In (m, (w, c)) totals ->
  In m (map Mode rows)
  /\ w == sum (map Weight (filter (fun r => String.eqb (Mode r) m) rows)).
Proof.
  intros Ht Hin. pose proof (mode_totals_NoDup _ _ Ht) as Hnd.
  apply mode_totals_inr in Ht. destruct Ht as [_ Hfold]. split.
  - apply (in_map fst) in Hin. rewrite Hfold, group_by_fold_keys in Hin.
    simpl in Hin. tauto.
  - rewrite <- (group_cell_value fst totals m (w, c) Hnd Hin).
    rewrite Hfold.
    rewrite (group_by_fold_cell plus2 fst (fun a b => Qeq_refl _) Mode
               (fun r => (Weight r, Cost r))).
    change (fun r : Row => fst (Weight r, Cost r)) with Weight.
    simpl. rewrite sum_nil. lra.
Qed.

(** X11. When the values the solver left are feasible for the model and the
    total weight is positive, every share printed in the mode summary is
    between 20% and 50%. *)
Theorem printed_shares_within_band (solve : LpProblem -> SolveOutcome)
    (data : list Shipment) (problem : LpProblem) (status : LpStatus)
    (varValue : Var -> option Q) (rows : list Row)
    (lines : list (string * Q * Q * Q)) :
  Model_Builder data = inr problem ->
  solve problem = Returned status varValue ->
  feasible problem (assignment_of varValue) ->
  0 < total_actual_weight data ->
  pipeline solve data = inr rows ->
  mode_distribution rows (total_actual_weight data) = inr lines ->
  forall m w share c, In (m, w, share, c) lines -> 0.2 <= share /\ share <= 0.5.
Proof.
  intros Hb Hs Hf HT Hp Hl m w share c Hin.
  pose proof (variables_NoDup _ _ Hb) as Hnd.
  pose proof (variables_priced _ _ Hb) as Hpriced.
  unfold pipeline in Hp. rewrite Hb in Hp. simpl in Hp. rewrite Hs in Hp. simpl in Hp.
  apply collect_results_rows in Hp as Hkeys. destruct Hkeys as [_ Hkeys].
  unfold mode_distribution in Hl.
  destruct (mode_totals rows) as [e|totals] eqn:Ht; simpl in Hl; [discriminate|].
  inversion Hl. subst lines. clear Hl.
  apply in_map_iff in Hin. destruct Hin as [[m' [w' c']] [Heq Hin]].
  simpl in Heq. inversion Heq. subst m' w' c'. clear Heq.
  destruct (mode_totals_line _ _ _ _ _ Ht Hin) as [Hm Hw].
  assert (Hmode : In m (dict_keys cost_per_kg)).
  { apply in_map_iff in Hm. destruct Hm as [r [Hmr Hr]].
    assert (Hk : In (Warehouse r, Mode r) (variables problem)).
    { rewrite <- Hkeys. apply (in_map (fun r => (Warehouse r, Mode r))). exact Hr. }
    destruct (Hpriced _ Hk) as [price Hprice]. simpl in Hprice.
    apply dict_get_Some_iff. rewrite <- Hmr. eauto. }
  assert (Hsum : w == sum (map (assignment_of varValue)
                             (filter (has_mode m) (variables problem)))).
  { rewrite Hw. apply (rows_weight_by_key varValue (has_mode m)). exact Hp. }
  destruct Hf as [_ Hf]. apply Model_Builder_inr in Hb. destruct Hb as [Hv Hc].
  rewrite Hc, <- Hv in Hf. unfold build_constraints in Hf.
  rewrite !Forall_app, !Forall_map, !Forall_forall in Hf.
  destruct Hf as [_ [Hmin [Hmax _]]].
  pose proof (proj1 (holds_min_allocation _ _ _ _ Hnd) (Hmin _ Hmode)) as Hlo.
  pose proof (proj1 (holds_max_allocation _ _ _ _ Hnd) (Hmax _ Hmode)) as Hhi.
  rewrite <- Hsum in Hlo, Hhi.
  split.
  - apply Qle_shift_div_l; assumption.
  - apply Qle_shift_div_r; assumption.
Qed.

Lemma printed_shares_within_band_witness :
  Model_Builder scenario_B = inr scenario_B_problem
  /\ feasible scenario_B_problem (assignment_of (fun k => Some (plan_B k)))
  /\ 0 < total_actual_weight scenario_B
  /\ (0.2 <= 50 / total_actual_weight scenario_B
      /\ 50 / total_actual_weight scenario_B <= 0.5).
Proof.
  assert (Hb : Model_Builder scenario_B = inr scenario_B_problem)
    by (vm_compute; reflexivity).
  assert (Hf : feasible scenario_B_problem (assignment_of (fun k => Some (plan_B k))))
    by exact plan_B_feasible.
  assert (HT : 0 < total_actual_weight scenario_B) by reflexivity.
  split; [exact Hb|]. split; [exact Hf|]. split; [exact HT|].
  apply (printed_shares_within_band
           (fun _ => Returned LpStatusOptimal (fun k => Some (plan_B k)))
           scenario_B scenario_B_problem LpStatusOptimal (fun k => Some (plan_B k))
           [ {| Warehouse := "A"; Mode := "Flight"; Weight := 20; Cost := 20 * 20 |};
             {| Warehouse := "A"; Mode := "Road"; Weight := 50; Cost := 50 * 5 |};
             {| Warehouse := "A"; Mode := "Ship"; Weight := 30; Cost := 30 * 10 |} ]
           [ ("Flight", 20, 20 / total_actual_weight scenario_B, 20 * 20);
             ("Road", 50, 50 / total_actual_weight scenario_B, 50 * 5);
             ("Ship", 30, 30 / total_actual_weight scenario_B, 30 * 10) ]
           Hb eq_refl Hf HT eq_refl eq_refl "Road" 50 _ (50 * 5)).
  right. left. reflexivity.
Defined.

(** ** Empty input and the summary *)

Lemma grouped_data_nil_iff (data : list Shipment) :
  grouped_data data = [] <-> observed_keys data = [].
Proof.
  split; intros H.
  - destruct (observed_keys data) as [|k l] eqn:E; [reflexivity|].
    exfalso.
    assert (Hin : In k (map fst (grouped_data data))).
    { apply grouped_data_keys. rewrite E. left. reflexivity. }
    rewrite H in Hin. exact Hin.
  - destruct (grouped_data data) as [|c g] eqn:E; [reflexivity|].
    exfalso.
    assert (Hin : In (fst c) (observed_keys data)).
    { apply grouped_data_keys. rewrite E. left. reflexivity. }
    rewrite H in Hin. exact Hin.
Qed.

Lemma observed_keys_nil_iff (data : list Shipment) :
  observed_keys data = [] <-> forall r, In r data -> key_of r = None.
Proof.
  split.
  - intros H r Hr. destruct (key_of r) as [k|] eqn:E; [|reflexivity].
    exfalso.
    assert (Hin : In k (observed_keys data)) by (apply In_observed_keys; eauto).
    rewrite H in Hin. exact Hin.
  - intros H. destruct (observed_keys data) as [|k l] eqn:E; [reflexivity|].
    exfalso.
    assert (Hin : In k (observed_keys data)) by (rewrite E; left; reflexivity).
    apply In_observed_keys in Hin. destruct Hin as [r [Hr Hk]].
    rewrite (H r Hr) in Hk. discriminate.
Qed.

Lemma rows_nil_iff (solve : LpProblem -> SolveOutcome) (data : list Shipment)
    (rows : list Row) :
  pipeline solve data = inr rows -> (rows = [] <-> observed_keys data = []).
Proof.
  intros Hp. apply pipeline_inr in Hp.
  destruct Hp as [problem [status [varValue [_ [_ Hr]]]]].
  apply collect_results_rows in Hr. destruct Hr as [_ Hkeys].
  rewrite <- grouped_data_nil_iff. split.
  - intros ->. simpl in Hkeys. symmetry in Hkeys. apply map_eq_nil in Hkeys. exact Hkeys.
  - intros Hg. rewrite Hg in Hkeys. apply map_eq_nil in Hkeys. exact Hkeys.
Qed.

(** X12. After a run that went through, the mode summary fails exactly when
    no record of the input has both labels, which includes the empty
    input, with the KeyError of the missing column Mode of the empty
    result frame; when some record has both labels it has at least one
    line. *)
Theorem mode_summary_fails_iff_no_keyed_record (solve : LpProblem -> SolveOutcome)
    (data : list Shipment) (rows : list Row) :
  pipeline solve data = inr rows ->
  (mode_totals rows = inl (KeyError "Mode")
   <-> forall r, In r data -> key_of r = None)
  /\ ((exists totals, mode_totals rows = inr totals /\ totals <> [])
      <-> exists r, In r data /\ key_of r <> None).
Proof.
  intros Hp. pose proof (rows_nil_iff _ _ _ Hp) as Hnil.
  rewrite observed_keys_nil_iff in Hnil.
  destruct rows as [|r rows].
  - assert (Hd : forall r, In r data -> key_of r = None) by (apply Hnil; reflexivity).
    split; split.
    + intros _. exact Hd.
    + intros _. reflexivity.
    + intros [totals [Ht _]]. simpl in Ht. discriminate.
    + intros [r [Hr Hk]]. exfalso. exact (Hk (Hd r Hr)).
  - assert (Hd : exists r, In r data /\ key_of r <> None).
    { assert (Hne : observed_keys data <> []).
      { intros He. pose proof (proj1 (observed_keys_nil_iff data) He) as He'.
        apply Hnil in He'. discriminate. }
      destruct (observed_keys data) as [|k l] eqn:E; [contradiction|].
      assert (Hin : In k (observed_keys data)) by (rewrite E; left; reflexivity).
      apply In_observed_keys in Hin. destruct Hin as [r0 [Hr0 Hk0]].
      exists r0. split; [exact Hr0|]. rewrite Hk0. discriminate. }
    split; split.
    + simpl. discriminate.
    + intros He. destruct Hd as [r0 [Hr0 Hk0]]. exfalso. exact (Hk0 (He r0 Hr0)).
    + intros _. exact Hd.
    + intros _. eexists. split; [reflexivity|].
      intros Hn.
      assert (Hin : In (Mode r)
                (map fst (fold_left
                            (fun g r0 => add_to_group_by plus2 (Mode r0) (Weight r0, Cost r0) g)
                            (r :: rows) []))).
      { apply group_by_fold_keys. right. left. reflexivity. }
      rewrite Hn in Hin. exact Hin.
Qed.

Lemma mode_summary_fails_iff_no_keyed_record_witness :
  pipeline reports_infeasible only_unlabelled = inr []
  /\ (forall r, In r only_unlabelled -> key_of r = None)
  /\ mode_totals [] = inl (KeyError "Mode").
Proof.
  assert (Hp : pipeline reports_infeasible only_unlabelled = inr []) by reflexivity.
  assert (Hd : forall r, In r only_unlabelled -> key_of r = None).
  { intros r [<-|[]]. reflexivity. }
  split; [exact Hp|]. split; [exact Hd|].
  apply (mode_summary_fails_iff_no_keyed_record reports_infeasible only_unlabelled [] Hp).
  exact Hd.
Defined.

(** ** The stacked bars *)

Lemma insert_sorted_In (x y : string) (l : list string) :
  In y (insert_sorted x l) <-> y = x \/ In y l.
Proof.
  induction l as [|z l IH]; simpl.
  - intuition.
  - destruct (String.leb x z); simpl; [intuition|].
    rewrite IH. intuition.
Qed.

Lemma sorted_In (y : string) (l : list string) : In y (sorted l) <-> In y l.
Proof.
  induction l as [|x l IH]; simpl; [tauto|].
  rewrite insert_sorted_In, IH. intuition.
Qed.

Lemma insert_sorted_length (x : string) (l : list string) :
  List.length (insert_sorted x l) = S (List.length l).
Proof.
  induction l as [|z l IH]; simpl; [reflexivity|].
  destruct (String.leb x z); simpl; [reflexivity|]. rewrite IH. reflexivity.
Qed.

Lemma sorted_length (l : list string) : List.length (sorted l) = List.length l.
Proof.
  induction l as [|x l IH]; simpl; [reflexivity|].
  rewrite insert_sorted_length, IH. reflexivity.
Qed.

Lemma bar_heights_inr (df : list Row) (mode : string) (whs : list string) :
  df <> [] \/ whs = [] ->
  mapM (bar_height df mode) whs = inr (map (height df mode) whs).
Proof.
  intros [Hdf| ->]; [|reflexivity].
  induction whs as [|wh whs IH]; simpl; [reflexivity|].
  rewrite IH. destruct df as [|r df]; [contradiction|]. reflexivity.
Qed.

Lemma vec_add_heights (B G : string -> Q) (whs : list string) (bottom : list Q) :
  Forall2 (fun wh b => b == B wh) whs bottom ->
  Forall2 (fun wh t => t == B wh + G wh) whs (vec_add bottom (map G whs)).
Proof.
  induction 1 as [|wh b whs bottom Hb Hall IH]; simpl; constructor.
  - rewrite Hb. reflexivity.
  - exact IH.
Qed.

Lemma zeros_Forall2 (whs : list string) :
  Forall2 (fun wh b => b == 0) whs (repeat 0 (List.length whs)).
Proof.
  induction whs as [|wh whs IH]; simpl; constructor; [reflexivity|exact IH].
Qed.

(** The loop goes through when the frame has rows or there is no
    warehouse, and every mode has a cost for its label. *)
Lemma stack_bars_inr (df : list Row) (whs : list string) (B : string -> Q) :
  df <> [] \/ whs = [] ->
  forall (ms : list string) (bottom : list Q),
    (forall m, In m ms -> In m (dict_keys cost_per_kg)) ->
    Forall2 (fun wh b => b == B wh) whs bottom ->
    exists bars tops,
      stack_bars df whs ms bottom = inr (bars, tops)
      /\ map (fun b => fst (fst b)) bars = ms
      /\ Forall (fun b => snd (fst b) = map (height df (fst (fst b))) whs) bars
      /\ Forall2 (fun wh t => t == B wh + sum (map (fun m => height df m wh) ms))
                 whs tops.
Proof.
  intros Hdf ms. revert B.
  induction ms as [|m ms IH]; intros B bottom Hms Hbot.
  - exists [], bottom. simpl. split; [reflexivity|]. split; [reflexivity|].
    split; [constructor|].
    revert Hbot. apply Forall2_impl. intros wh b Hb.
    rewrite Hb, sum_nil. lra.
  - destruct (subscript_known cost_per_kg m (Hms m (or_introl eq_refl))) as [c Hc].
    destruct (IH (fun wh => B wh + height df m wh)
                 (vec_add bottom (map (height df m) whs)))
      as [bars [tops [Hst [Hmodes [Hheights Htops]]]]].
    + intros m' Hm'. apply Hms. right. exact Hm'.
    + apply vec_add_heights. exact Hbot.
    + exists ((m, map (height df m) whs, bottom) :: bars), tops.
      simpl. rewrite (bar_heights_inr df m whs Hdf). simpl.
      rewrite Hc. simpl. rewrite Hst. simpl.
      split; [reflexivity|]. split; [rewrite Hmodes; reflexivity|].
      split; [constructor; [reflexivity|exact Hheights]|].
      revert Htops. apply Forall2_impl. intros wh t Ht.
      rewrite Ht. simpl. rewrite sum_cons. lra.
Qed.

Lemma str_lt_le_trans (a b c : string) : str_lt a b -> str_le b c -> str_lt a c.
Proof.
  unfold str_le. intros Hab Hbc.
  destruct (String.compare b c) eqn:E; [| |contradiction].
  - apply String_as_OT.cmp_eq in E. subst. exact Hab.
  - eapply str_lt_trans; eassumption.
Qed.

Lemma str_le_trans (a b c : string) : str_le a b -> str_le b c -> str_le a c.
Proof.
  intros Hab Hbc. unfold str_le in Hab.
  destruct (String.compare a b) eqn:E; [| |contradiction].
  - apply String_as_OT.cmp_eq in E. subst. exact Hbc.
  - assert (H : str_lt a c) by (eapply str_lt_le_trans; eassumption).
    unfold str_le. unfold str_lt in H. rewrite H. discriminate.
Qed.

Lemma leb_false_le (x y : string) : String.leb x y = false -> str_le y x.
Proof.
  unfold String.leb. destruct (String.compare x y) eqn:E; try discriminate.
  intros _. apply str_compare_gt in E. unfold str_le. unfold str_lt in E.
  rewrite E. discriminate.
Qed.

Lemma leb_true_le (x y : string) : String.leb x y = true -> str_le x y.
Proof.
  unfold String.leb, str_le. destruct (String.compare x y); congruence.
Qed.

Lemma insert_sorted_ordered (x : string) (l : list string) :
  StronglySorted str_le l -> StronglySorted str_le (insert_sorted x l).
Proof.
  induction 1 as [|y l Hs IH Hall]; simpl.
  - constructor; constructor.
  - destruct (String.leb x y) eqn:E.
    + constructor; [constructor; assumption|].
      apply leb_true_le in E. constructor; [exact E|].
      rewrite Forall_forall in *. intros z Hz.
      eapply str_le_trans; [exact E|]. auto.
    + constructor; [exact IH|].
      rewrite Forall_forall in *. intros z Hz.
      apply insert_sorted_In in Hz. destruct Hz as [->|Hz]; [|auto].
      apply leb_false_le. exact E.
Qed.

(** [sorted] puts a list in ascending order. *)
Lemma sorted_ordered (l : list string) : StronglySorted str_le (sorted l).
Proof.
  induction l as [|x l IH]; simpl; [constructor|].
  apply insert_sorted_ordered. exact IH.
Qed.

Lemma insert_sorted_NoDup (x : string) (l : list string) :
  ~ In x l -> NoDup l -> NoDup (insert_sorted x l).
Proof.
  intros Hx Hnd. revert Hx. induction Hnd as [|y l Hy Hnd IH]; intros Hx; simpl.
  - constructor; [intros []|constructor].
  - destruct (String.leb x y).
    + constructor; [exact Hx|]. constructor; assumption.
    + constructor.
      * rewrite insert_sorted_In. intros [->|Hin]; [|contradiction].
        apply Hx. left. reflexivity.
      * apply IH. intros Hin. apply Hx. right. exact Hin.
Qed.

Lemma sorted_NoDup_list (l : list string) : NoDup l -> NoDup (sorted l).
Proof.
  induction 1 as [|x l Hx Hnd IH]; simpl; [constructor|].
  apply insert_sorted_NoDup; [|exact IH].
  rewrite sorted_In. exact Hx.
Qed.

Lemma ordered_NoDup_strict (l : list string) :
  StronglySorted str_le l -> NoDup l -> StronglySorted str_lt l.
Proof.
  induction 1 as [|a l Hs IH Hall]; intros Hnd; [constructor|].
  inversion Hnd as [|? ? Ha Hnd']. subst.
  constructor; [apply IH; exact Hnd'|].
  rewrite Forall_forall in *. intros b Hb.
  specialize (Hall b Hb). unfold str_le in Hall. unfold str_lt.
  destruct (String.compare a b) eqn:E; [|reflexivity|contradiction].
  apply String_as_OT.cmp_eq in E. subst. contradiction.
Qed.

(** The warehouses of the chart: each once, in strictly ascending order. *)
Lemma chart_warehouses_sorted (grouped : list Cell) :
  StronglySorted str_lt (chart_warehouses grouped).
Proof.
  unfold chart_warehouses. apply ordered_NoDup_strict.
  - apply sorted_ordered.
  - apply sorted_NoDup_list. apply unique_NoDup.
Qed.

(** Rows of known modes split by the three modes of the chart. *)
Lemma heights_cover_warehouse (df : list Row) (wh : string) :
  Forall (fun r => exists c, dict_get cost_per_kg (Mode r) = Some c) df ->
  sum (map (fun m => height df m wh) modes) == sum (map Weight (wh_data df wh)).
Proof.
  unfold modes, height, wh_data. simpl. rewrite !sum_cons, sum_nil.
  induction 1 as [|r df [c Hc] Hall IH]; simpl.
  - rewrite !sum_nil. lra.
  - destruct (String.eqb (Warehouse r) wh); simpl; [|exact IH].
    rewrite sum_cons.
    destruct (known_mode_cases _ _ Hc) as [[-> _]|[[-> _]|[-> _]]]; simpl;
      rewrite !sum_cons; unfold Var, Key in *; lra.
Qed.

(** X13. The chart data is computed for the rows of every run that went
    through: one series of bars per mode, Flight, Ship, Road, each with
    one height per warehouse, the weight the rows give to the mode there;
    the warehouses are those of the records that have both labels, each
    once, in strictly ascending order; and each stack ends at the total
    weight the rows give to its warehouse. *)
Theorem stacked_bars_reach_warehouse_totals (solve : LpProblem -> SolveOutcome)
    (data : list Shipment) (rows : list Row) :
  pipeline solve data = inr rows ->
  exists bars tops,
    warehouse_chart (grouped_data data) rows = inr (bars, tops)
    /\ map (fun b => fst (fst b)) bars = ["Flight"; "Ship"; "Road"]
    /\ Forall (fun b => snd (fst b)
                        = map (height rows (fst (fst b)))
                              (chart_warehouses (grouped_data data))) bars
    /\ StronglySorted str_lt (chart_warehouses (grouped_data data))
    /\ (forall w, In w (chart_warehouses (grouped_data data))
                  <-> exists r m, In r data /\ key_of r = Some (w, m))
    /\ Forall2 (fun wh t => t == sum (map Weight (wh_data rows wh)))
               (chart_warehouses (grouped_data data)) tops.
Proof.
  intros Hp. pose proof (rows_nil_iff _ _ _ Hp) as Hnil.
  apply pipeline_inr in Hp. destruct Hp as [problem [status [varValue [_ [_ Hr]]]]].
  apply collect_results_rows in Hr. destruct Hr as [Hpriced _].
  assert (Hknown : Forall (fun r => exists c, dict_get cost_per_kg (Mode r) = Some c) rows).
  { rewrite Forall_forall in *. intros r Hr.
    destruct (Hpriced r Hr) as [c [Hc _]]. eauto. }
  assert (Hdf : rows <> [] \/ chart_warehouses (grouped_data data) = []).
  { destruct rows as [|r rows]; [right|left; discriminate].
    assert (Hg : grouped_data data = []).
    { apply grouped_data_nil_iff. apply Hnil. reflexivity. }
    rewrite Hg. reflexivity. }
  destruct (stack_bars_inr rows (chart_warehouses (grouped_data data)) (fun _ => 0)
              Hdf modes
              (repeat 0 (List.length
                           (unique (map (fun row : Cell => fst (fst row))
                                        (grouped_data data))))))
    as [bars [tops [Hst [Hmodes [Hheights Htops]]]]].
  - intros m Hm. exact Hm.
  - unfold chart_warehouses at 1.
    rewrite <- (sorted_length (unique (map (fun row : Cell => fst (fst row))
                                          (grouped_data data)))).
    apply zeros_Forall2.
  - exists bars, tops. split; [exact Hst|]. split; [exact Hmodes|].
    split; [exact Hheights|]. split; [apply chart_warehouses_sorted|]. split.
    + intros w. unfold chart_warehouses.
      rewrite sorted_In, unique_In, grouped_data_warehouses, in_map_iff. split.
      * intros [[w' m] [Hw Hk]]. simpl in Hw. subst w'.
        apply In_observed_keys in Hk. destruct Hk as [r [Hr Hk]]. eauto.
      * intros [r [m [Hr Hk]]]. exists (w, m). split; [reflexivity|].
        apply In_observed_keys. eauto.
    + revert Htops. apply Forall2_impl. intros wh t Ht.
      rewrite Ht, (heights_cover_warehouse rows wh Hknown). lra.
Qed.

Lemma stacked_bars_reach_warehouse_totals_witness :
  pipeline (reports_optimal 30) scenario_B
  = inr [ {| Warehouse := "A"; Mode := "Flight"; Weight := 30; Cost := 30 * 20 |};
          {| Warehouse := "A"; Mode := "Road"; Weight := 30; Cost := 30 * 5 |};
          {| Warehouse := "A"; Mode := "Ship"; Weight := 30; Cost := 30 * 10 |} ]
  /\ exists bars tops,
       warehouse_chart (grouped_data scenario_B)
         [ {| Warehouse := "A"; Mode := "Flight"; Weight := 30; Cost := 30 * 20 |};
           {| Warehouse := "A"; Mode := "Road"; Weight := 30; Cost := 30 * 5 |};
           {| Warehouse := "A"; Mode := "Ship"; Weight := 30; Cost := 30 * 10 |} ]
       = inr (bars, tops)
       /\ map (fun b => fst (fst b)) bars = ["Flight"; "Ship"; "Road"].
Proof.
  split; [reflexivity|].
  destruct (stacked_bars_reach_warehouse_totals (reports_optimal 30) scenario_B _ eq_refl)
    as [bars [tops [Hc [Hm _]]]].
  exists bars, tops. split; [exact Hc|exact Hm].
Defined.

(** ** The warehouse listing *)

Lemma insert_sorted_min (x : string) (l : list string) :
  StronglySorted str_lt (x :: l) -> insert_sorted x l = x :: l.
Proof.
  intros Hs. destruct l as [|y l]; [reflexivity|].
  inversion Hs as [|? ? _ Hall]. subst. inversion Hall as [|? ? Hxy _]. subst.
  simpl. unfold String.leb. unfold str_lt in Hxy. rewrite Hxy. reflexivity.
Qed.

(** Sorting a list that is in strictly ascending order leaves it as it is. *)
Lemma sorted_of_sorted (l : list string) : StronglySorted str_lt l -> sorted l = l.
Proof.
  induction l as [|x l IH]; intros Hs; [reflexivity|].
  simpl. inversion Hs as [|? ? Hs' _]. subst.
  rewrite (IH Hs'). apply insert_sorted_min. exact Hs.
Qed.

Section Blocks.
Context {A : Type} (kf : A -> string).

Lemma filter_none (w : string) (l : list A) :
  (forall a, In a l -> kf a <> w) ->
  filter (fun a => String.eqb (kf a) w) l = []
  /\ filter (fun a => negb (String.eqb (kf a) w)) l = l.
Proof.
  induction l as [|a l IH]; intros H; simpl; [split; reflexivity|].
  assert (Ha : String.eqb (kf a) w = false).
  { apply String.eqb_neq. apply H. left. reflexivity. }
  rewrite Ha. simpl.
  destruct IH as [IH1 IH2]; [intros; apply H; right; assumption|].
  rewrite IH1, IH2. split; reflexivity.
Qed.

Lemma split_first_block (w : string) (l : list A) :
  StronglySorted (fun a b => str_le (kf a) (kf b)) l ->
  (forall a, In a l -> kf a = w \/ str_lt w (kf a)) ->
  (filter (fun a => String.eqb (kf a) w) l
   ++ filter (fun a => negb (String.eqb (kf a) w)) l)%list = l.
Proof.
  induction 1 as [|a l Hs IH Hall]; intros Hmin; simpl; [reflexivity|].
  destruct (Hmin a (or_introl eq_refl)) as [Ha|Ha].
  - rewrite Ha, String.eqb_refl. simpl. f_equal.
    apply IH. intros; apply Hmin; right; assumption.
  - assert (Hne : String.eqb (kf a) w = false).
    { apply String.eqb_neq. intros He. rewrite He in Ha. exact (str_lt_irrefl _ Ha). }
    rewrite Hne. simpl.
    destruct (filter_none w l) as [H1 H2].
    { intros b Hb He. rewrite Forall_forall in Hall.
      apply (str_lt_irrefl w). rewrite <- He at 2.
      eapply str_lt_le_trans; [exact Ha|apply Hall; exact Hb]. }
    rewrite H1, H2. reflexivity.
Qed.

Lemma filter_sorted (p : A -> bool) (l : list A) :
  StronglySorted (fun a b => str_le (kf a) (kf b)) l ->
  StronglySorted (fun a b => str_le (kf a) (kf b)) (filter p l).
Proof.
  induction 1 as [|a l Hs IH Hall]; simpl; [constructor|].
  destruct (p a); [|exact IH].
  constructor; [exact IH|].
  rewrite Forall_forall in *. intros b Hb. apply filter_In in Hb. apply Hall, Hb.
Qed.

Lemma filter_after_drop (w w' : string) (l : list A) :
  w' <> w ->
  filter (fun a => String.eqb (kf a) w') (filter (fun a => negb (String.eqb (kf a) w)) l)
  = filter (fun a => String.eqb (kf a) w') l.
Proof.
  intros Hne. induction l as [|a l IH]; simpl; [reflexivity|].
  destruct (String.eqb (kf a) w) eqn:E; simpl.
  - apply String.eqb_eq in E.
    assert (E' : String.eqb (kf a) w' = false).
    { apply String.eqb_neq. congruence. }
    rewrite E'. exact IH.
  - rewrite IH. reflexivity.
Qed.

(** Cutting a list that is sorted on a column into the blocks of the
    column's values, taken in ascending order, and joining the blocks
    gives the list back. *)
Lemma blocks_cover (ws : list string) :
  StronglySorted str_lt ws ->
  forall l : list A,
    StronglySorted (fun a b => str_le (kf a) (kf b)) l ->
    (forall a, In a l -> In (kf a) ws) ->
    List.concat (map (fun w => filter (fun a => String.eqb (kf a) w) l) ws) = l.
Proof.
  induction 1 as [|w ws Hs IH Hall]; intros l Hl Hin.
  - destruct l as [|a l]; [reflexivity|].
    exfalso. exact (Hin a (or_introl eq_refl)).
  - simpl. rewrite Forall_forall in Hall.
    assert (Hrest : map (fun w' => filter (fun a => String.eqb (kf a) w') l) ws
                    = map (fun w' => filter (fun a => String.eqb (kf a) w')
                                       (filter (fun a => negb (String.eqb (kf a) w)) l)) ws).
    { apply map_ext_in. intros w' Hw'. symmetry. apply filter_after_drop.
      intros He. subst w'. exact (str_lt_irrefl w (Hall w Hw')). }
    rewrite Hrest, IH.
    + apply split_first_block; [exact Hl|].
      intros a Ha. destruct (Hin a Ha) as [Hw|Hw]; [left; auto|right; auto].
    + apply filter_sorted. exact Hl.
    + intros a Ha. apply filter_In in Ha. destruct Ha as [Ha Hne].
      destruct (Hin a Ha) as [Hw|Hw]; [|exact Hw].
      rewrite <- Hw, String.eqb_refl in Hne. discriminate.
Qed.
End Blocks.

Lemma key_lt_fst_le (a b : Key) : key_lt a b -> str_le (fst a) (fst b).
Proof.
  unfold key_lt, key_compare, str_le.
  destruct (String.compare (fst a) (fst b)); congruence.
Qed.

Lemma rows_sorted_by_warehouse (rows : list Row) :
  StronglySorted key_lt (map (fun r => (Warehouse r, Mode r)) rows) ->
  StronglySorted (fun a b => str_le (Warehouse a) (Warehouse b)) rows.
Proof.
  induction rows as [|r rows IH]; simpl; intros Hs; [constructor|].
  inversion Hs as [|? ? Hs' Hall]. subst.
  constructor; [apply IH; exact Hs'|].
  rewrite Forall_forall in *. intros b Hb.
  apply (key_lt_fst_le (Warehouse r, Mode r) (Warehouse b, Mode b)).
  apply Hall. apply (in_map (fun r => (Warehouse r, Mode r))). exact Hb.
Qed.

Lemma warehouse_totals_inr (df : list Row) (totals : list (string * Q)) :
  warehouse_totals df = inr totals ->
  df <> []
  /\ totals = fold_left (fun g r => add_to_group_by Qplus (Warehouse r) (Weight r) g) df [].
Proof.
  unfold warehouse_totals. destruct df as [|r df]; simpl; [discriminate|].
  intros H. inversion H. split; [discriminate|reflexivity].
Qed.

(** X14. The warehouse section lists the warehouses of the records that have
    both labels in ascending order, each once, with a total that is the
    weight of its rows; the rows listed under the warehouses, taken
    together in that order, are the result rows, each listed once. *)
Theorem warehouse_listing_covers_rows (solve : LpProblem -> SolveOutcome)
    (data : list Shipment) (rows : list Row) (totals : list (string * Q))
    (listing : list (string * list Row)) :
  pipeline solve data = inr rows ->
  warehouse_totals rows = inr totals ->
  warehouse_listing rows = inr listing ->
  map fst listing = map fst totals
  /\ StronglySorted str_lt (map fst listing)
  /\ (forall w, In w (map fst listing) <-> In w (map fst (observed_keys data)))
  /\ (forall w t, In (w, t) totals -> t == sum (map Weight (wh_data rows w)))
  /\ List.concat (map snd listing) = rows.
Proof.
  intros Hp Ht Hl.
  pose proof (pipeline_inr _ _ _ Hp) as [problem [status [varValue [_ [_ Hr]]]]].
  apply collect_results_rows in Hr. destruct Hr as [_ Hkeys].
  unfold warehouse_listing in Hl. rewrite Ht in Hl. simpl in Hl.
  inversion Hl. subst listing. clear Hl.
  apply warehouse_totals_inr in Ht. destruct Ht as [_ Hfold].
  assert (Hsorted : StronglySorted str_lt (map fst totals)).
  { rewrite Hfold. apply group_by_fold_sorted. constructor. }
  assert (Hmem : forall w, In w (map fst totals) <-> In w (map Warehouse rows)).
  { intros w. rewrite Hfold, group_by_fold_keys. simpl. tauto. }
  rewrite (sorted_of_sorted _ Hsorted).
  assert (Hfst : map fst (map (fun wh => (wh, wh_data rows wh)) (map fst totals))
                 = map fst totals).
  { rewrite map_map. simpl. apply map_id. }
  assert (Hsnd : map snd (map (fun wh => (wh, wh_data rows wh)) (map fst totals))
                 = map (fun w => filter (fun r => String.eqb (Warehouse r) w) rows)
                       (map fst totals)).
  { rewrite map_map. reflexivity. }
  rewrite Hfst, Hsnd.
  split; [reflexivity|]. split; [exact Hsorted|]. split; [|split].
  - intros w. rewrite Hmem, <- grouped_data_warehouses.
    assert (He : map Warehouse rows
                 = map (fun row : Cell => fst (fst row)) (grouped_data data)).
    { pose proof (f_equal (map fst) Hkeys) as H1.
      rewrite !map_map in H1. exact H1. }
    rewrite He. tauto.
  - intros w t Hin.
    rewrite <- (group_cell_value (fun x : Q => x) totals w t
                  (str_sorted_NoDup _ Hsorted) Hin).
    rewrite Hfold.
    rewrite (group_by_fold_cell Qplus (fun x : Q => x) (fun a b => Qeq_refl _)
               Warehouse Weight).
    simpl. rewrite sum_nil. unfold wh_data.
    change (fun r : Row => Weight r) with Weight. lra.
  - apply (blocks_cover Warehouse (map fst totals) Hsorted rows).
    + apply rows_sorted_by_warehouse. rewrite Hkeys. apply grouped_data_sorted.
    + intros r Hr. apply Hmem. apply in_map. exact Hr.
Qed.

Lemma warehouse_listing_covers_rows_witness :
  pipeline (reports_optimal 30) scenario_B
  = inr [ {| Warehouse := "A"; Mode := "Flight"; Weight := 30; Cost := 30 * 20 |};
          {| Warehouse := "A"; Mode := "Road"; Weight := 30; Cost := 30 * 5 |};
          {| Warehouse := "A"; Mode := "Ship"; Weight := 30; Cost := 30 * 10 |} ]
  /\ warehouse_totals
       [ {| Warehouse := "A"; Mode := "Flight"; Weight := 30; Cost := 30 * 20 |};
         {| Warehouse := "A"; Mode := "Road"; Weight := 30; Cost := 30 * 5 |};
         {| Warehouse := "A"; Mode := "Ship"; Weight := 30; Cost := 30 * 10 |} ]
     = inr [("A", 30 + 30 + 30)]
  /\ List.concat (map snd
               [("A",
                 [ {| Warehouse := "A"; Mode := "Flight"; Weight := 30; Cost := 30 * 20 |};
                   {| Warehouse := "A"; Mode := "Road"; Weight := 30; Cost := 30 * 5 |};
                   {| Warehouse := "A"; Mode := "Ship"; Weight := 30; Cost := 30 * 10 |} ])])
     = [ {| Warehouse := "A"; Mode := "Flight"; Weight := 30; Cost := 30 * 20 |};
         {| Warehouse := "A"; Mode := "Road"; Weight := 30; Cost := 30 * 5 |};
         {| Warehouse := "A"; Mode := "Ship"; Weight := 30; Cost := 30 * 10 |} ].
Proof.
  split; [reflexivity|]. split; [reflexivity|].
  apply (warehouse_listing_covers_rows (reports_optimal 30) scenario_B _
           [("A", 30 + 30 + 30)] _ eq_refl eq_refl eq_refl).
Defined.

(** ** What the capacity bounds imply *)

Lemma sum_bump (G : string -> Q) (w0 : string) (x : Q) (ws : list string) :
  NoDup ws -> In w0 ws ->
  sum (map (fun w => G w + (if String.eqb w0 w then x else 0)) ws)
  == sum (map G ws) + x.
Proof.
  induction 1 as [|w ws Hn Hnd IH]; intros Hin; [destruct Hin|].
  simpl. rewrite !sum_cons. destruct Hin as [->|Hin].
  - rewrite String.eqb_refl.
    assert (Hrest : sum (map (fun w => G w + (if String.eqb w0 w then x else 0)) ws)
                    == sum (map G ws)).
    { clear - Hn. induction ws as [|w ws IHws]; simpl; [reflexivity|].
      rewrite !sum_cons, IHws by (intros H; apply Hn; right; exact H).
      destruct (String.eqb_spec w0 w) as [->|_]; [|lra].
      exfalso. apply Hn. left. reflexivity. }
    rewrite Hrest. lra.
  - rewrite (IH Hin).
    destruct (String.eqb_spec w0 w) as [->|_]; [contradiction|]. lra.
Qed.

Lemma sum_map_Qeq {A} (F F' : A -> Q) (l : list A) :
  (forall a, F a == F' a) -> sum (map F l) == sum (map F' l).
Proof.
  intros H. induction l as [|a l IH]; simpl; [reflexivity|].
  rewrite !sum_cons, IH, (H a). reflexivity.
Qed.

(** A sum over keys splits by warehouse, over any duplicate-free list of
    warehouses that has the warehouse of every key. *)
Lemma sum_by_warehouse (f : Key -> Q) (ws : list string) (l : list Key) :
  NoDup ws ->
  (forall k, In k l -> In (fst k) ws) ->
  sum (map f l) == sum (map (fun w => sum (map f (filter (has_warehouse w) l))) ws).
Proof.
  intros Hnd. induction l as [|k l IH]; intros Hin.
  - simpl. clear. induction ws as [|w ws IHws]; simpl; [reflexivity|].
    rewrite sum_cons, <- IHws, !sum_nil. lra.
  - simpl map at 1. rewrite sum_cons, IH by (intros; apply Hin; right; assumption).
    rewrite (sum_map_Qeq
               (fun w => sum (map f (filter (has_warehouse w) (k :: l))))
               (fun w => sum (map f (filter (has_warehouse w) l))
                         + (if String.eqb (fst k) w then f k else 0))).
    + rewrite sum_bump; [lra|exact Hnd|apply Hin; left; reflexivity].
    + intros w. simpl. unfold has_warehouse at 1.
      destruct (String.eqb (fst k) w); simpl; rewrite ?sum_cons; lra.
Qed.

Lemma others_bound (A H : string -> Q) (c : Q) (w : string) (ws : list string) :
  NoDup ws -> In w ws ->
  (forall w', In w' ws -> A w' <= c * H w') ->
  sum (map A ws) - A w <= c * (sum (map H ws) - H w).
Proof.
  induction 1 as [|w0 ws Hn Hnd IH]; intros Hin Hle; [destruct Hin|].
  simpl. rewrite !sum_cons. destruct Hin as [->|Hin].
  - assert (Hrest : sum (map A ws) <= c * sum (map H ws)).
    { clear - Hle. induction ws as [|w1 ws IHws]; simpl.
      - rewrite !sum_nil. lra.
      - rewrite !sum_cons.
        assert (H1 : A w1 <= c * H w1) by (apply Hle; right; left; reflexivity).
        assert (H2 : sum (map A ws) <= c * sum (map H ws)).
        { apply IHws. intros w' [->|Hw']; apply Hle; [left|right; right]; auto. }
        lra. }
    lra.
  - assert (H0 : A w0 <= c * H w0) by (apply Hle; left; reflexivity).
    assert (H1 : sum (map A ws) - A w <= c * (sum (map H ws) - H w)).
    { apply IH; [exact Hin|]. intros; apply Hle; right; assumption. }
    lra.
Qed.

Lemma sum_by_warehouse_cells (ws : list string) (g : list Cell) :
  NoDup ws ->
  (forall c, In c g -> In (fst (fst c)) ws) ->
  sum (map snd g) == sum (map (warehouse_weight g) ws).
Proof.
  intros Hnd. unfold warehouse_weight. induction g as [|c g IH]; intros Hin.
  - simpl. clear. induction ws as [|w ws IHws]; simpl; [reflexivity|].
    rewrite sum_cons, <- IHws, !sum_nil. lra.
  - simpl map at 1. rewrite sum_cons, IH by (intros; apply Hin; right; assumption).
    rewrite (sum_map_Qeq
               (fun w => sum (map snd (filter (fun row : Cell => has_warehouse w (fst row))
                                         (c :: g))))
               (fun w => sum (map snd (filter (fun row : Cell => has_warehouse w (fst row)) g))
                         + (if String.eqb (fst (fst c)) w then snd c else 0))).
    + rewrite sum_bump; [|exact Hnd|apply Hin; left; reflexivity].
      rewrite Qplus_comm. reflexivity.
    + intros w. simpl. unfold has_warehouse at 1.
      destruct (String.eqb (fst (fst c)) w); simpl; rewrite ?sum_cons; lra.
Qed.

(** X15. The capacity bounds also hold a warehouse up: in a feasible plan a
    warehouse gets at least the total weight minus 1.1 times the
    historical weight of the other warehouses, because those cannot take
    more. When the records that the grouping drops do not weigh less than
    nothing together, that is at least 1.1 times the warehouse's
    historical weight minus a tenth of the total weight. The historical
    weights are those of the records that have both labels. *)
Theorem feasible_warehouse_floor (data : list Shipment) (problem : LpProblem)
    (sigma : Var -> Q) (w : string) :
  Model_Builder data = inr problem ->
  feasible problem sigma ->
  In w (map fst (observed_keys data)) ->
  total_actual_weight data
  - 1.1 * (sum (map Weight_in_kg (filter (keyed (fun _ => true)) data))
           - sum (map Weight_in_kg (filter (keyed (has_warehouse w)) data)))
  <= sum (map sigma (filter (has_warehouse w) (variables problem)))
  /\ (sum (map Weight_in_kg (filter (keyed (fun _ => true)) data))
      <= total_actual_weight data ->
      1.1 * sum (map Weight_in_kg (filter (keyed (has_warehouse w)) data))
      - 0.1 * total_actual_weight data
      <= sum (map sigma (filter (has_warehouse w) (variables problem)))).
Proof.
  intros Hb Hf Hw. pose proof (variables_NoDup _ _ Hb) as Hnd.
  apply Model_Builder_inr in Hb. destruct Hb as [Hv Hc].
  destruct Hf as [_ Hf]. rewrite Hc, <- Hv in Hf. unfold build_constraints in Hf.
  rewrite !Forall_app, !Forall_map, !Forall_forall in Hf.
  destruct Hf as [Hsum [_ [_ Hcap]]].
  assert (Htot : sum (map sigma (variables problem)) == total_actual_weight data).
  { apply (holds_total_weight_constraint _ _ _ Hnd). apply Hsum. left. reflexivity. }
  set (ws := unique (map (fun row : Cell => fst (fst row)) (grouped_data data))) in *.
  assert (Hws : NoDup ws) by apply unique_NoDup.
  assert (Hwin : In w ws).
  { apply unique_In. apply grouped_data_warehouses. exact Hw. }
  assert (HA : sum (map sigma (variables problem))
               == sum (map (fun w' => sum (map sigma (filter (has_warehouse w')
                                                         (variables problem)))) ws)).
  { apply sum_by_warehouse; [exact Hws|].
    intros k Hk. apply unique_In. rewrite Hv in Hk.
    apply in_map_iff in Hk. destruct Hk as [c [<- Hc']].
    apply (in_map (fun row : Cell => fst (fst row))). exact Hc'. }
  assert (HH : sum (map Weight_in_kg (filter (keyed (fun _ => true)) data))
               == sum (map (warehouse_weight (grouped_data data)) ws)).
  { rewrite <- sum_by_warehouse_cells.
    - unfold grouped_data, groupby_sum.
      rewrite groupby_fold_sum. simpl. rewrite sum_nil. lra.
    - exact Hws.
    - intros c Hc'. apply unique_In.
      apply (in_map (fun row : Cell => fst (fst row))). exact Hc'. }
  pose proof (others_bound
                (fun w' => sum (map sigma (filter (has_warehouse w') (variables problem))))
                (warehouse_weight (grouped_data data)) 1.1 w ws Hws Hwin) as Hothers.
  cbv beta in Hothers.
  rewrite <- HA, <- HH, Htot in Hothers.
  rewrite <- warehouse_weight_historical.
  assert (Hle : forall w', In w' ws ->
            sum (map sigma (filter (has_warehouse w') (variables problem)))
            <= 1.1 * warehouse_weight (grouped_data data) w').
  { intros w' Hw'. apply (holds_warehouse_capacity _ _ _ _ Hnd). apply Hcap. exact Hw'. }
  specialize (Hothers Hle). split; [lra|]. intros HK. lra.
Qed.

Lemma feasible_warehouse_floor_witness :
  Model_Builder scenario_B = inr scenario_B_problem
  /\ feasible scenario_B_problem plan_B
  /\ In "A" (map fst (observed_keys scenario_B))
  /\ sum (map Weight_in_kg (filter (keyed (fun _ => true)) scenario_B))
     <= total_actual_weight scenario_B
  /\ 1.1 * sum (map Weight_in_kg
                  (filter (keyed (has_warehouse "A")) scenario_B))
     - 0.1 * total_actual_weight scenario_B
     <= sum (map plan_B (filter (has_warehouse "A") (variables scenario_B_problem))).
Proof.
  assert (Hb : Model_Builder scenario_B = inr scenario_B_problem)
    by (vm_compute; reflexivity).
  assert (Hw : In "A" (map fst (observed_keys scenario_B))) by (left; reflexivity).
  assert (HK : sum (map Weight_in_kg (filter (keyed (fun _ => true)) scenario_B))
               <= total_actual_weight scenario_B) by (vm_compute; discriminate).
  split; [exact Hb|]. split; [exact plan_B_feasible|]. split; [exact Hw|].
  split; [exact HK|].
  exact (proj2 (feasible_warehouse_floor scenario_B scenario_B_problem plan_B "A"
                  Hb plan_B_feasible Hw) HK).
Defined.

(** ** Keeping the historical allocation *)

Lemma add_to_group_where (p : Key -> bool) (k : Key) (x : Q) (g : list Cell) :
  sum (map snd (filter (fun c : Cell => p (fst c)) (add_to_group k x g)))
  == sum (map snd (filter (fun c : Cell => p (fst c)) g)) + (if p k then x else 0).
Proof.
  induction g as [|[k' s] g IH]; simpl.
  - destruct (p k); simpl; rewrite ?sum_cons, ?sum_nil; lra.
  - destruct (key_compare k k') eqn:E; simpl.
    + apply key_compare_eq in E. subst k'.
      destruct (p k); simpl; rewrite ?sum_cons; lra.
    + destruct (p k), (p k'); simpl; rewrite ?sum_cons; simpl; rewrite ?sum_cons; lra.
    + destruct (p k'); simpl; rewrite ?sum_cons, IH; lra.
Qed.

Lemma groupby_fold_where (p : Key -> bool) (data : list Shipment) (g : list Cell) :
  sum (map snd (filter (fun c : Cell => p (fst c))
                  (fold_left group_step data g)))
  == sum (map snd (filter (fun c : Cell => p (fst c)) g))
     + sum (map Weight_in_kg (filter (keyed p) data)).
Proof.
  revert g. induction data as [|r data IH]; intros g; simpl.
  - rewrite sum_nil. lra.
  - rewrite IH. unfold group_step, keyed.
    destruct (key_of r) as [k0|]; [|lra].
    rewrite add_to_group_where.
    destruct (p k0); simpl; rewrite ?sum_cons; lra.
Qed.

(** The weight the groups hold for the keys of a kind is the weight of
    the records of that kind. *)
Lemma grouped_weight_where (p : Key -> bool) (data : list Shipment) :
  sum (map snd (filter (fun c : Cell => p (fst c)) (grouped_data data)))
  == sum (map Weight_in_kg (filter (keyed p) data)).
Proof.
  unfold grouped_data, groupby_sum. rewrite groupby_fold_where. simpl.
  rewrite sum_nil. lra.
Qed.

Lemma filter_all_true {A} (l : list A) : filter (fun _ => true) l = l.
Proof.
  induction l as [|a l IH]; simpl; [reflexivity|]. rewrite IH. reflexivity.
Qed.

Lemma sum_nonneg (l : list Q) : Forall (fun x => 0 <= x) l -> 0 <= sum l.
Proof.
  induction 1 as [|x l Hx Hall IH].
  - rewrite sum_nil. lra.
  - rewrite sum_cons. lra.
Qed.

Lemma records_weight_nonneg (p : Shipment -> bool) (data : list Shipment) :
  (forall r, In r data -> 0 <= Weight_in_gms r) ->
  0 <= sum (map Weight_in_kg (filter p data)).
Proof.
  intros H. apply sum_nonneg. rewrite Forall_forall. intros x Hx.
  apply in_map_iff in Hx. destruct Hx as [r [<- Hr]].
  apply filter_In in Hr. destruct Hr as [Hr _].
  unfold Weight_in_kg. specialize (H r Hr).
  apply Qle_shift_div_l; [reflexivity|]. lra.
Qed.

Lemma historical_cell (g : list Cell) (c : Cell) :
  NoDup (map fst g) -> In c g -> historical g (fst c) == snd c.
Proof.
  intros Hnd Hin. destruct c as [k s]. apply NoDup_cell_weight; assumption.
Qed.

Lemma sum_historical_where (h : Var -> Q) (p : Key -> bool) (l : list Cell) :
  (forall c, In c l -> h (fst c) == snd c) ->
  sum (map h (filter p (map fst l)))
  == sum (map snd (filter (fun c : Cell => p (fst c)) l)).
Proof.
  induction l as [|c l IH]; intros H; simpl; [reflexivity|].
  destruct (p (fst c)); simpl.
  - rewrite !sum_cons, IH, (H c) by (try (left; reflexivity); intros; apply H; right; assumption).
    reflexivity.
  - apply IH. intros; apply H; right; assumption.
Qed.

(** X16. When no record has a negative weight, keeping the historical
    allocation is a feasible plan exactly when the records that have both
    labels carry the whole total weight, so that nothing is lost with the
    rows the grouping drops, and the historical weight of every mode of
    the cost table is between 0.2 and 0.5 of the total: the signs and the
    warehouse capacities hold by themselves. *)
Theorem historical_plan_feasible_iff (data : list Shipment) (problem : LpProblem) :
  Model_Builder data = inr problem ->
  (forall r, In r data -> 0 <= Weight_in_gms r) ->
  (feasible problem (historical (grouped_data data)) <->
   sum (map Weight_in_kg (filter (keyed (fun _ => true)) data))
   == total_actual_weight data
   /\ forall mode, In mode (dict_keys cost_per_kg) ->
        0.2 * total_actual_weight data
        <= sum (map Weight_in_kg (filter (keyed (has_mode mode)) data))
        /\ sum (map Weight_in_kg (filter (keyed (has_mode mode)) data))
           <= 0.5 * total_actual_weight data).
Proof.
  intros Hb Hpos. pose proof (variables_NoDup _ _ Hb) as Hnd.
  apply Model_Builder_inr in Hb. destruct Hb as [Hv Hc].
  assert (Hcell : forall c, In c (grouped_data data) ->
                            historical (grouped_data data) (fst c) == snd c).
  { intros c. apply historical_cell. apply grouped_data_NoDup. }
  assert (Hwhere : forall p,
            sum (map (historical (grouped_data data)) (filter p (variables problem)))
            == sum (map Weight_in_kg (filter (keyed p) data))).
  { intros p. rewrite Hv, (sum_historical_where _ p _ Hcell).
    apply grouped_weight_where. }
  assert (Hmode : forall mode,
            sum (map (historical (grouped_data data))
                   (filter (has_mode mode) (variables problem)))
            == sum (map Weight_in_kg
                      (filter (keyed (has_mode mode)) data))).
  { intros mode. apply (Hwhere (has_mode mode)). }
  assert (Hall : sum (map (historical (grouped_data data)) (variables problem))
                 == sum (map Weight_in_kg (filter (keyed (fun _ => true)) data))).
  { rewrite <- (Hwhere (fun _ => true)), filter_all_true. reflexivity. }
  unfold feasible. rewrite Hc, <- Hv. unfold build_constraints.
  rewrite !Forall_app, !Forall_map, !Forall_forall.
  split.
  - intros [_ [Hsum [Hmin [Hmax _]]]]. split.
    + rewrite <- Hall. apply (holds_total_weight_constraint _ _ _ Hnd).
      apply Hsum. left. reflexivity.
    + intros mode Hm. rewrite <- Hmode. split.
      * apply (holds_min_allocation _ _ _ _ Hnd). apply Hmin. exact Hm.
      * apply (holds_max_allocation _ _ _ _ Hnd). apply Hmax. exact Hm.
  - intros [Htotal Hband]. split; [|split; [|split; [|split]]].
    + intros v _. unfold historical.
      rewrite (grouped_weight_where (fun k => key_eqb k v)).
      apply records_weight_nonneg. exact Hpos.
    + intros c [<-|[]]. apply (holds_total_weight_constraint _ _ _ Hnd).
      rewrite Hall. exact Htotal.
    + intros mode Hm. apply (holds_min_allocation _ _ _ _ Hnd).
      rewrite Hmode. apply Hband. exact Hm.
    + intros mode Hm. apply (holds_max_allocation _ _ _ _ Hnd).
      rewrite Hmode. apply Hband. exact Hm.
    + intros w Hw. apply (holds_warehouse_capacity _ _ _ _ Hnd).
      rewrite (Hwhere (has_warehouse w)), warehouse_weight_historical.
      pose proof (records_weight_nonneg
                    (keyed (has_warehouse w)) data Hpos) as H0.
      lra.
Qed.

Lemma historical_plan_feasible_iff_witness :
  Model_Builder scenario_B = inr scenario_B_problem
  /\ (forall r, In r scenario_B -> 0 <= Weight_in_gms r)
  /\ feasible scenario_B_problem (historical (grouped_data scenario_B)).
Proof.
  assert (Hb : Model_Builder scenario_B = inr scenario_B_problem)
    by (vm_compute; reflexivity).
  assert (Hpos : forall r, In r scenario_B -> 0 <= Weight_in_gms r).
  { intros r [<-|[<-|[<-|[]]]]; simpl; discriminate. }
  split; [exact Hb|]. split; [exact Hpos|].
  apply (historical_plan_feasible_iff scenario_B scenario_B_problem Hb Hpos).
  split; [reflexivity|].
  intros mode [<-|[<-|[<-|[]]]]; split; vm_compute; discriminate.
Defined.
